(** * check_mrtgtraf: the MRTG traffic plugin

    A shallow embedding of [plugins/check_mrtgtraf.c] and the properties of
    its argument resolver, log reader and evaluator.

    Conventions.  The C data model is LP64: [int] has 32 bits, [long],
    [unsigned long] and [time_t] have 64.  Unsigned values live in [N], signed
    ones in [Z], and every conversion that can wrap is written out
    ([to_int], [to_long]).  C strings are [string]s; a null pointer is [None].
    The [double]s of the program are all exact binary fractions, so they are
    kept as rationals in [Q], with the one rounding step (the conversion of a
    64-bit integer to a 53-bit significand) written out. *)

From Stdlib Require Import ZArith NArith QArith Bool List Lia.
From Stdlib Require Import Ascii String DecimalString.
From Stdlib Require DecimalPos DecimalN.
Import ListNotations.

Local Open Scope string_scope.

(** ** Characters and strings *)

Definition nl : string := String (ascii_of_nat 10) EmptyString.

(** [isspace] in the C locale: space and the controls 9 to 13. *)
Definition isspace (c : ascii) : bool :=
  let n := nat_of_ascii c in
  Nat.eqb n 32 || (Nat.leb 9 n && Nat.leb n 13).

Definition isdigit (c : ascii) : bool :=
  let n := nat_of_ascii c in
  Nat.leb 48 n && Nat.leb n 57.

Definition digit_value (c : ascii) : N := N.of_nat (nat_of_ascii c - 48).

(** The bytes of a buffer up to its terminating NUL. *)
Fixpoint c_str (s : string) : string :=
  match s with
  | EmptyString => EmptyString
  | String c s' => if Ascii.eqb c zero then EmptyString else String c (c_str s')
  end.

Fixpoint strchr (s : string) (c : ascii) : bool :=
  match s with
  | EmptyString => false
  | String d s' => Ascii.eqb c d || strchr s' c
  end.

(** ** Machine integers (LP64) *)

Module C.

Definition ULONG_MAX : N := 18446744073709551615.
Definition LONG_MAX : Z := 9223372036854775807.
Definition LONG_MIN : Z := -9223372036854775808.
Definition INT_MAX : Z := 2147483647.
Definition INT_MIN : Z := -2147483648.

(** Conversion to a signed 32-bit [int]: reduction modulo 2^32. *)
Definition to_int (z : Z) : Z := (z + 2 ^ 31) mod 2 ^ 32 - 2 ^ 31.

(** Conversion to a signed 64-bit [long] (also what signed arithmetic that
    overflows yields on the two's complement machines the plugin runs on). *)
Definition to_long (z : Z) : Z := (z + 2 ^ 63) mod 2 ^ 64 - 2 ^ 63.

(** Unsigned 64-bit negation, as [strtoul] applies it to a minus sign. *)
Definition neg_ulong (v : N) : N := ((2 ^ 64 - v) mod 2 ^ 64)%N.

(** *** Number parsing *)

Fixpoint skip_spaces (s : string) : string :=
  match s with
  | String c s' => if isspace c then skip_spaces s' else s
  | EmptyString => s
  end.

Definition take_sign (s : string) : bool * string :=
  match s with
  | String "-" s' => (true, s')
  | String "+" s' => (false, s')
  | _ => (false, s)
  end.

(** The value of the longest prefix of decimal digits, how many digits it
    has, and what follows it. *)
Fixpoint digits (acc : N) (count : nat) (s : string) : N * nat * string :=
  match s with
  | String c s' =>
      if isdigit c then digits (10 * acc + digit_value c)%N (S count) s'
      else (acc, count, s)
  | EmptyString => (acc, count, s)
  end.

(** What [strtoul] makes of a sign and a magnitude: [ULONG_MAX] on overflow,
    the negation modulo 2^64 after a minus sign. *)
Definition ulong_of (neg : bool) (v : N) : N :=
  if (ULONG_MAX <? v)%N then ULONG_MAX
  else if neg then neg_ulong v else v.

(** [strtoul (s, NULL, 10)].  A string without digits gives 0. *)
Definition strtoul (s : string) : N :=
  let '(neg, s1) := take_sign (skip_spaces s) in
  let '(v, _, _) := digits 0 0 s1 in
  ulong_of neg v.

(** [strtol (s, NULL, 10)], which clamps to the range of [long]. *)
Definition strtol (s : string) : Z :=
  let '(neg, s1) := take_sign (skip_spaces s) in
  let '(v, _, _) := digits 0 0 s1 in
  if neg then Z.max LONG_MIN (- Z.of_N v) else Z.min LONG_MAX (Z.of_N v).

(** [atoi (s)] is [(int) strtol (s, NULL, 10)]. *)
Definition atoi (s : string) : Z := to_int (strtol s).

(** One [%lu] conversion of [sscanf]: white space is skipped, then a sign and
    at least one digit are needed; the result is the value and the rest of
    the input, or [None] on a matching failure. *)
Definition scan_lu (s : string) : option (N * string) :=
  let '(neg, s1) := take_sign (skip_spaces s) in
  let '(v, count, rest) := digits 0 0 s1 in
  match count with
  | O => None
  | S _ => Some (ulong_of neg v, rest)
  end.

(** [sscanf (s, "%lu,%lu", &a, &b)]: which of the two variables are
    assigned, and to what. *)
Definition sscanf_lu_lu (s : string) : option N * option N :=
  match scan_lu s with
  | None => (None, None)
  | Some (a, String "," rest) =>
      match scan_lu rest with
      | None => (Some a, None)
      | Some (b, _) => (Some a, Some b)
      end
  | Some (a, _) => (Some a, None)
  end.

(** *** Tokens and lines *)

(** [strtok]: the next token of the text that is left, and what is left after
    it; [None] is the null pointer returned when only delimiters remain. *)
Fixpoint skip_delims (delims : string) (s : string) : string :=
  match s with
  | String c s' => if strchr delims c then skip_delims delims s' else s
  | EmptyString => s
  end.

Fixpoint token (delims : string) (s : string) : string * string :=
  match s with
  | String c s' =>
      if strchr delims c then (EmptyString, s')
      else let '(t, rest) := token delims s' in (String c t, rest)
  | EmptyString => (EmptyString, EmptyString)
  end.

Definition strtok (delims : string) (s : string) : option (string * string) :=
  match skip_delims delims s with
  | EmptyString => None
  | s1 => Some (token delims s1)
  end.

(** [fgets (buf, size, fp)] on a stream whose unread part is [fp]: at most
    [size - 1] characters, stopping after a newline.  [None] is the null
    pointer returned at end of file. *)
Fixpoint read_line (room : nat) (fp : string) : string * string :=
  match room, fp with
  | S room', String c fp' =>
      if Ascii.eqb c (ascii_of_nat 10) then (String c EmptyString, fp')
      else let '(buf, rest) := read_line room' fp' in (String c buf, rest)
  | _, _ => (EmptyString, fp)
  end.

Definition fgets (size : nat) (fp : string) : option (string * string) :=
  match size with
  | O => None
  | 1%nat => Some (EmptyString, fp)
  | S room =>
      match fp with
      | EmptyString => None
      | _ => Some (read_line room fp)
      end
  end.

End C.

(** ** The option scanner

    [getopt_long] of the C library in its default (permuting) mode, for the
    option string and the table of long options of the plugin.  It is given
    as the list of what its successive calls return, in order, followed by
    the elements of [argv] that are not options, which it leaves at
    [argv[optind]] and after, in their original order. *)

Module Getopt.

Inductive has_arg_t := no_argument | required_argument.

Record option_t := mk_option { name : string; has_arg : has_arg_t; val : ascii }.

(** A return of [getopt_long]: the option character, and [optarg] for an
    option that takes an argument. *)
Inductive ret :=
| Flag (c : ascii)
| WithArg (c : ascii) (optarg : string).

Definition optstring : string := "hVF:e:a:c:w:".

Definition longopts : list option_t :=
  [ mk_option "logfile" required_argument "F";
    mk_option "expires" required_argument "e";
    mk_option "aggregation" required_argument "a";
    mk_option "variable" required_argument "v";
    mk_option "critical" required_argument "c";
    mk_option "warning" required_argument "w";
    mk_option "verbose" no_argument "v";
    mk_option "version" no_argument "V";
    mk_option "help" no_argument "h" ].

(** Whether [c] is an option character of [opts], and if so whether a colon
    follows it. *)
Fixpoint short_lookup (opts : string) (c : ascii) : option bool :=
  match opts with
  | EmptyString => None
  | String o rest =>
      if Ascii.eqb c o
      then Some (match rest with String ":" _ => true | _ => false end)
      else short_lookup rest c
  end.

(** The characters of one [argv] element after its dash.  [next] is the
    following element, if any; the boolean tells whether it was taken as an
    argument. *)
Fixpoint short_cluster (chars : string) (next : option string) : list ret * bool :=
  match chars with
  | EmptyString => ([], false)
  | String c chars' =>
      let invalid :=
        let '(rs, used) := short_cluster chars' next in (Flag "?" :: rs, used) in
      if Ascii.eqb c ":" || Ascii.eqb c ";" then invalid
      else
        match short_lookup optstring c with
        | None => invalid
        | Some false =>
            let '(rs, used) := short_cluster chars' next in (Flag c :: rs, used)
        | Some true =>
            match chars', next with
            | String _ _, _ => ([WithArg c chars'], false)
            | EmptyString, Some a => ([WithArg c a], true)
            | EmptyString, None => ([Flag "?"], false)
            end
        end
  end.

(** The name of a long option and the value after an equals sign. *)
Fixpoint split_eq (s : string) : string * option string :=
  match s with
  | EmptyString => (EmptyString, None)
  | String "=" v => (EmptyString, Some v)
  | String c s' => let '(n, v) := split_eq s' in (String c n, v)
  end.

Definition same_option (o p : option_t) : bool :=
  match has_arg o, has_arg p with
  | no_argument, no_argument | required_argument, required_argument =>
      Ascii.eqb (val o) (val p)
  | _, _ => false
  end.

(** An exact match wins; otherwise the name may abbreviate the options it is
    a prefix of, if they all mean the same. *)
Definition find_long (nm : string) : option option_t :=
  match filter (fun o => String.eqb nm (name o)) longopts with
  | o :: _ => Some o
  | [] =>
      match filter (fun o => String.prefix nm (name o)) longopts with
      | [] => None
      | o :: others => if forallb (same_option o) others then Some o else None
      end
  end.

Definition long_option (body : string) (next : option string) : ret * bool :=
  let '(nm, value) := split_eq body in
  match find_long nm with
  | None => (Flag "?", false)
  | Some o =>
      match value, has_arg o, next with
      | Some v, required_argument, _ => (WithArg (val o) v, false)
      | Some _, no_argument, _ => (Flag "?", false)
      | None, no_argument, _ => (Flag (val o), false)
      | None, required_argument, Some a => (WithArg (val o) a, true)
      | None, required_argument, None => (Flag "?", false)
      end
  end.

(** The scan of [argv[1]] and after. *)
Fixpoint scan (args : list string) : list ret * list string :=
  match args with
  | [] => ([], [])
  | a :: rest =>
      let after (used : bool) :=
        match rest with
        | _ :: rest' => if used then scan rest' else scan rest
        | [] => ([], [])
        end in
      match a with
      | String "-" (String "-" EmptyString) => ([], rest)
      | String "-" (String "-" body) =>
          let '(r, used) := long_option body (hd_error rest) in
          let '(rs, nonopts) := after used in (r :: rs, nonopts)
      | String "-" (String c chars) =>
          let '(rs1, used) := short_cluster (String c chars) (hd_error rest) in
          let '(rs, nonopts) := after used in ((rs1 ++ rs)%list, nonopts)
      | _ =>
          let '(rs, nonopts) := scan rest in (rs, a :: nonopts)
      end
  end.

Definition getopt_long (argv : list string) : list ret * list string :=
  scan (tl argv).

End Getopt.

(** ** Plugin states, exits and the helpers of the plugin library *)

Inductive state := STATE_OK | STATE_WARNING | STATE_CRITICAL | STATE_UNKNOWN.

(** Modelled from the spec: the exit codes of [common.h], which is not among
    the sources: 0 = OK, 1 = WARNING, 2 = CRITICAL, 3 = UNKNOWN. *)
Definition exit_code (s : state) : Z :=
  match s with
  | STATE_OK => 0
  | STATE_WARNING => 1
  | STATE_CRITICAL => 2
  | STATE_UNKNOWN => 3
  end.

Definition state_eqb (a b : state) : bool := (exit_code a =? exit_code b)%Z.

(** The return codes of [process_arguments]. *)
Inductive retcode := OK | ERROR.

(** What a run writes to standard output: text that the plugin formats
    itself, or the version and help screens, whose wording belongs to
    [print_revision] and [support] of the plugin library. *)
Inductive output :=
| Text (s : string)
| Revision
| Help.

(** How a run ends.  [Undefined] stands for undefined behaviour of the C
    program, which here is always a null pointer handed to the C library. *)
Inductive outcome :=
| Exit (st : state) (out : output)
| Undefined.

Definition PROGNAME : string := "check_mrtgtraf".

Definition print_usage : string :=
  "Usage: " ++ PROGNAME
  ++ "  -F <log_file> -a <AVG | MAX> -v <variable> -w <warning_pair> -c <critical_pair>"
  ++ nl
  ++ "            [-e expire_minutes] [-t timeout] [-v]" ++ nl
  ++ "       " ++ PROGNAME ++ " --help" ++ nl
  ++ "       " ++ PROGNAME ++ " --version" ++ nl.

(** Modelled from the spec: [usage] of [utils.c], which is not among the
    sources: it prints the message and the usage text and terminates the
    process with the UNKNOWN exit. *)
Definition usage (msg : string) : outcome :=
  Exit STATE_UNKNOWN (Text (msg ++ print_usage)).

(** Modelled from the spec: [terminate] of [utils.c], which is not among the
    sources: it prints the formatted message and exits with the given state. *)
Definition terminate (st : state) (msg : string) : outcome :=
  Exit st (Text msg).

(** ** The configuration: the global variables of the plugin *)

Record config := mk_config {
  log_file : option string;
  expire_minutes : Z;
  use_average : bool;
  incoming_warning_threshold : N;
  incoming_critical_threshold : N;
  outgoing_warning_threshold : N;
  outgoing_critical_threshold : N
}.

(** The initial values of the globals. *)
Definition defaults : config :=
  {| log_file := None;
     expire_minutes := -1;
     use_average := true;
     incoming_warning_threshold := 0;
     incoming_critical_threshold := 0;
     outgoing_warning_threshold := 0;
     outgoing_critical_threshold := 0 |}.

Definition set_log_file (v : option string) (g : config) : config :=
  mk_config v (expire_minutes g) (use_average g)
    (incoming_warning_threshold g) (incoming_critical_threshold g)
    (outgoing_warning_threshold g) (outgoing_critical_threshold g).

Definition set_expire_minutes (v : Z) (g : config) : config :=
  mk_config (log_file g) v (use_average g)
    (incoming_warning_threshold g) (incoming_critical_threshold g)
    (outgoing_warning_threshold g) (outgoing_critical_threshold g).

Definition set_use_average (v : bool) (g : config) : config :=
  mk_config (log_file g) (expire_minutes g) v
    (incoming_warning_threshold g) (incoming_critical_threshold g)
    (outgoing_warning_threshold g) (outgoing_critical_threshold g).

Definition set_incoming_warning (v : N) (g : config) : config :=
  mk_config (log_file g) (expire_minutes g) (use_average g)
    v (incoming_critical_threshold g)
    (outgoing_warning_threshold g) (outgoing_critical_threshold g).

Definition set_incoming_critical (v : N) (g : config) : config :=
  mk_config (log_file g) (expire_minutes g) (use_average g)
    (incoming_warning_threshold g) v
    (outgoing_warning_threshold g) (outgoing_critical_threshold g).

Definition set_outgoing_warning (v : N) (g : config) : config :=
  mk_config (log_file g) (expire_minutes g) (use_average g)
    (incoming_warning_threshold g) (incoming_critical_threshold g)
    v (outgoing_critical_threshold g).

Definition set_outgoing_critical (v : N) (g : config) : config :=
  mk_config (log_file g) (expire_minutes g) (use_average g)
    (incoming_warning_threshold g) (incoming_critical_threshold g)
    (outgoing_warning_threshold g) v.

(** An assignment through a pointer that [sscanf] may leave untouched. *)
Definition assign {A} (set : A -> config -> config) (v : option A) (g : config) : config :=
  match v with
  | Some a => set a g
  | None => g
  end.

(** ** The argument resolver *)

(** The first loop of [process_arguments]: the old spellings of three options
    are overwritten in place, in every element after [argv[0]]. *)
Definition respell (a : string) : string :=
  if String.eqb "-to" a then "-t"
  else if String.eqb "-wt" a then "-w"
  else if String.eqb "-ct" a then "-c"
  else a.

Definition respell_argv (argv : list string) : list string :=
  match argv with
  | [] => []
  | a0 :: args => a0 :: map respell args
  end.

(** The [switch] on one return of [getopt_long]: the globals after it, or the
    exit it takes. *)
Definition handle_option (r : Getopt.ret) (g : config) : config + outcome :=
  match r with
  | Getopt.WithArg "F" optarg => inl (set_log_file (Some optarg) g)
  | Getopt.WithArg "e" optarg => inl (set_expire_minutes (C.atoi optarg) g)
  | Getopt.WithArg "a" optarg =>
      if String.eqb optarg "MAX"
      then inl (set_use_average false g)
      else inl (set_use_average true g)
  | Getopt.WithArg "c" optarg =>
      let '(i, o) := C.sscanf_lu_lu optarg in
      inl (assign set_outgoing_critical o (assign set_incoming_critical i g))
  | Getopt.WithArg "w" optarg =>
      let '(i, o) := C.sscanf_lu_lu optarg in
      inl (assign set_outgoing_warning o (assign set_incoming_warning i g))
  | Getopt.Flag "V" => inr (Exit STATE_OK Revision)
  | Getopt.Flag "h" => inr (Exit STATE_OK Help)
  | Getopt.Flag "?" => inr (usage ("Invalid argument" ++ nl))
  | _ => inl g
  end.

(** The [while (1)] loop over the returns of [getopt_long]; it ends when the
    scanner has no option left. *)
Fixpoint handle_options (rs : list Getopt.ret) (g : config) : config + outcome :=
  match rs with
  | [] => inl g
  | r :: rs' =>
      match handle_option r g with
      | inl g' => handle_options rs' g'
      | inr o => inr o
      end
  end.

(** The legacy positional arguments, [argv[optind]] and after.  Each step
    is one [if] of the source; the list is what is left from [argv[c]] on. *)
Definition positional_log_file (st : config * list string) : config * list string :=
  match st with
  | (g, a :: rest) =>
      match log_file g with
      | None => (set_log_file (Some a) g, rest)
      | Some _ => st
      end
  | _ => st
  end.

Definition positional_expire (st : config * list string) : config * list string :=
  match st with
  | (g, a :: rest) =>
      if (expire_minutes g =? -1)%Z then (set_expire_minutes (C.atoi a) g, rest) else st
  | _ => st
  end.

Definition positional_aggregation (st : config * list string) : config * list string :=
  match st with
  | (g, a :: rest) =>
      if String.eqb a "MAX" then (set_use_average false g, rest)
      else if String.eqb a "AVG" then (set_use_average true g, rest)
      else st
  | _ => st
  end.

Definition positional_threshold
    (get : config -> N) (set : N -> config -> config)
    (st : config * list string) : config * list string :=
  match st with
  | (g, a :: rest) =>
      if (get g =? 0)%N then (set (C.strtoul a) g, rest) else st
  | _ => st
  end.

Definition positional (g : config) (rest : list string) : config :=
  let st := positional_log_file (g, rest) in
  let st := positional_expire st in
  let st := positional_aggregation st in
  let st := positional_threshold incoming_warning_threshold set_incoming_warning st in
  let st := positional_threshold incoming_critical_threshold set_incoming_critical st in
  let st := positional_threshold outgoing_warning_threshold set_outgoing_warning st in
  let st := positional_threshold outgoing_critical_threshold set_outgoing_critical st in
  fst st.

Definition validate_arguments : retcode := OK.

(** The options and then the positional arguments, from the initial globals
    [g]. *)
Definition resolve (g : config) (argv : list string) : (retcode * config) + outcome :=
  let '(rs, rest) := Getopt.getopt_long (respell_argv argv) in
  match handle_options rs g with
  | inr o => inr o
  | inl g' => inl (validate_arguments, positional g' rest)
  end.

(** [process_arguments (argc, argv)]: its return code and the globals, or the
    exit taken inside it. *)
Definition process_arguments (argv : list string) : (retcode * config) + outcome :=
  if (List.length argv <? 2)%nat then inl (ERROR, defaults)
  else resolve defaults argv.

(** ** The log reader *)

(** The five fields that the second line of the log provides.  [timestamp] is
    a [time_t]; the rates are [unsigned long]. *)
Record log_record := mk_record {
  timestamp : Z;
  average_incoming_rate : N;
  average_outgoing_rate : N;
  maximum_incoming_rate : N;
  maximum_outgoing_rate : N
}.

(** The locals of [main] before the read loop. *)
Definition no_record : log_record := mk_record 0 0 0 0 0.

(** [strtoul (strtok (..., " "), NULL, 10)]: the number and what is left of
    the line.  When no token is left [strtok] returns a null pointer, which
    [strtoul] may not be given: [None]. *)
Definition next_field (s : string) : option (N * string) :=
  match C.strtok " " s with
  | None => None
  | Some (temp_buffer, rest) => Some (C.strtoul temp_buffer, rest)
  end.

(** The body of the read loop for the second line. *)
Definition parse_line (input_buffer : string) : option log_record :=
  match next_field (c_str input_buffer) with
  | None => None
  | Some (ts, s1) =>
  match next_field s1 with
  | None => None
  | Some (ai, s2) =>
  match next_field s2 with
  | None => None
  | Some (ao, s3) =>
  match next_field s3 with
  | None => None
  | Some (mi, s4) =>
  match next_field s4 with
  | None => None
  | Some (mo, _) => Some (mk_record (C.to_long (Z.of_N ts)) ai ao mi mo)
  end end end end end.

(** How the read loop ends. *)
Inductive read_result :=
| Read (line : nat) (r : log_record)
| ReadUndefined
| OutOfFuel.

Section ReadLoop.

(** [MAX_INPUT_BUFFER] comes from [common.h], which is not among the
    sources; the reader is kept generic in it. *)
Variable MAX_INPUT_BUFFER : nat.

(** [while (fgets (input_buffer, MAX_INPUT_BUFFER - 1, fp)) { ... }] with the
    unread part of the file in [fp].  Every iteration uses one unit of fuel;
    the loop leaves at its third line at the latest, so three units are
    always enough ([read_loop_enough] below). *)
Fixpoint read_loop (fuel : nat) (fp : string) (line : nat) (r : log_record) : read_result :=
  match fuel with
  | O => OutOfFuel
  | S fuel' =>
      match C.fgets (MAX_INPUT_BUFFER - 1) fp with
      | None => Read line r
      | Some (input_buffer, fp') =>
          let line := S line in
          if (line =? 1)%nat then read_loop fuel' fp' line r
          else if (2 <? line)%nat then Read line r
          else
            match parse_line input_buffer with
            | None => ReadUndefined
            | Some r' => read_loop fuel' fp' line r'
            end
      end
  end.

Definition read_log (content : string) : read_result :=
  read_loop 3 content 0 no_record.

End ReadLoop.

(** ** The evaluator *)

(** *** The numbers that are displayed *)

(** [n / d] rounded to the nearest integer, a tie to the even one. *)
Definition round_half_even (n d : N) : N :=
  let q := (n / d)%N in
  let r := (n mod d)%N in
  if (2 * r <? d)%N then q
  else if (d <? 2 * r)%N then (q + 1)%N
  else if N.even q then q else (q + 1)%N.

(** The conversion of an [unsigned long] to [double]: exact below 2^53,
    otherwise rounded to 53 significant bits, ties to the even significand.
    The result is the integer that the [double] holds. *)
Definition double_of_ulong (r : N) : N :=
  if (r <? 2 ^ 53)%N then r
  else
    let ulp := (2 ^ (N.log2 r - 52))%N in
    (round_half_even r ulp * ulp)%N.

(** [%d] and the digits of a natural number. *)
Definition fmt_d (z : Z) : string := NilZero.string_of_int (Z.to_int z).
Definition fmt_u (n : N) : string := NilZero.string_of_uint (N.to_uint n).

(** [%0.1f] of a [double] that is not negative, as an IEEE 754 C library
    prints it: the exact value is rounded to one decimal, ties to even, and
    printed with its integer part, a point and one digit. *)
Definition tenths (q : Q) : N :=
  round_half_even (Z.to_N (Qnum q) * 10) (Npos (Qden q)).

Definition fmt_f1 (q : Q) : string :=
  let t := tenths q in
  fmt_u (t / 10) ++ "." ++ fmt_u (t mod 10).

(** The unit and the value a rate is reported in.  The divisions by 1024.0
    are exact in binary floating point. *)
Definition speed_rating (rate : N) : string :=
  if (rate <? 1024)%N then "B/s"
  else if (rate <? 1024 * 1024)%N then "KB/s"
  else "MB/s".

Definition adjusted_rate (rate : N) : Q :=
  let d := inject_Z (Z.of_N (double_of_ulong rate)) in
  if (rate <? 1024)%N then d
  else if (rate <? 1024 * 1024)%N then (d / 1024)%Q
  else (d / 1024 / 1024)%Q.

(** *** Staleness, rate selection and the decision *)

(** [current_time - timestamp], a [time_t]. *)
Definition age (current_time : Z) (r : log_record) : Z :=
  C.to_long (current_time - timestamp r).

(** The condition of the staleness [if]; the product is an [int]. *)
Definition expired (g : config) (r : log_record) (current_time : Z) : bool :=
  (0 <? expire_minutes g)%Z
  && (C.to_int (expire_minutes g * 60) <? age current_time r)%Z.

Definition expired_message (g : config) (r : log_record) (current_time : Z) : string :=
  "MRTG data has expired ("
  ++ fmt_d (C.to_int (Z.quot (age current_time r) 60))
  ++ " minutes old)" ++ nl.

Definition incoming_rate (g : config) (r : log_record) : N :=
  if use_average g then average_incoming_rate r else maximum_incoming_rate r.

Definition outgoing_rate (g : config) (r : log_record) : N :=
  if use_average g then average_outgoing_rate r else maximum_outgoing_rate r.

(** The text of the format ["%s. In = %0.1f %s, %s. Out = %0.1f %s"]. *)
Definition traffic_message (g : config) (r : log_record) : string :=
  let label := if use_average g then "Ave" else "Max" in
  label ++ ". In = " ++ fmt_f1 (adjusted_rate (incoming_rate g r))
  ++ " " ++ speed_rating (incoming_rate g r)
  ++ ", " ++ label ++ ". Out = " ++ fmt_f1 (adjusted_rate (outgoing_rate g r))
  ++ " " ++ speed_rating (outgoing_rate g r).

(** The two threshold tests, which decide [result]. *)
Definition check_rates (g : config) (r : log_record) : state :=
  if (incoming_critical_threshold g <? incoming_rate g r)%N
     || (outgoing_critical_threshold g <? outgoing_rate g r)%N
  then STATE_CRITICAL
  else if (incoming_warning_threshold g <? incoming_rate g r)%N
          || (outgoing_warning_threshold g <? outgoing_rate g r)%N
  then STATE_WARNING
  else STATE_OK.

(** [main] from the staleness test to its [return]. *)
Definition evaluate (g : config) (r : log_record) (current_time : Z) : outcome :=
  if expired g r current_time
  then terminate STATE_WARNING (expired_message g r current_time)
  else
    let result := check_rates g r in
    let error_message := traffic_message g r in
    if state_eqb result STATE_OK
    then Exit result (Text ("Traffic ok - " ++ traffic_message g r ++ nl))
    else Exit result (Text (error_message ++ nl)).

(** ** The program *)

Section Main.

Variable MAX_INPUT_BUFFER : nat.

(** The file system: the content of the file a path names, if it can be
    opened for reading. *)
Variable fopen : string -> option string.

(** [main] after [process_arguments] has returned [OK]. *)
Definition run (g : config) (current_time : Z) : outcome :=
  match log_file g with
  | None => Undefined
  | Some path =>
      match fopen path with
      | None => usage ("Unable to open MRTG log file" ++ nl)
      | Some content =>
          match read_log MAX_INPUT_BUFFER content with
          | ReadUndefined => Undefined
          | OutOfFuel => Undefined (* does not occur: [read_log_total] *)
          | Read line r =>
              if (line <=? 2)%nat
              then usage ("Unable to process MRTG log file" ++ nl)
              else evaluate g r current_time
          end
      end
  end.

Definition main (argv : list string) (current_time : Z) : outcome :=
  match process_arguments argv with
  | inr o => o
  | inl (ERROR, _) => usage ("Invalid command arguments supplied" ++ nl)
  | inl (OK, g) => run g current_time
  end.

End Main.

(** ** The status of an outcome *)

Definition status (o : outcome) : option state :=
  match o with
  | Exit st _ => Some st
  | Undefined => None
  end.

Definition printed (o : outcome) : option string :=
  match o with
  | Exit _ (Text s) => Some s
  | _ => None
  end.

(** ** Notions used to state the properties *)

(** The argument of an [-a] option, and that of the last [-a] option among
    the returns of the option scanner, if there is one. *)
Definition aggregation_arg (r : Getopt.ret) : option string :=
  match r with
  | Getopt.WithArg "a" optarg => Some optarg
  | _ => None
  end.

Fixpoint aggregation_flag (rs : list Getopt.ret) : option string :=
  match rs with
  | [] => None
  | r :: rs' =>
      match aggregation_flag rs' with
      | Some v => Some v
      | None => aggregation_arg r
      end
  end.

(** Whether an [-a] option with this argument, or none, means the average
    mode; [otherwise] is the mode without the option. *)
Definition flag_average (flag : option string) (otherwise : bool) : bool :=
  match flag with
  | Some v => negb (String.eqb v "MAX")
  | None => otherwise
  end.

(** The same for the positional argument: [MAX] and [AVG] decide, anything
    else does not. *)
Definition slot_average (slot : option string) (otherwise : bool) : bool :=
  match slot with
  | Some v =>
      if String.eqb v "MAX" then false
      else if String.eqb v "AVG" then true
      else otherwise
  | None => otherwise
  end.

(** The positional argument that is compared with [MAX] and [AVG]: the one
    at [argv[c]] once the log file and the expiry have taken theirs. *)
Definition aggregation_slot (g : config) (rest : list string) : option string :=
  hd_error (snd (positional_expire (positional_log_file (g, rest)))).

(** The fields of a line as [strtok] with a blank delimiter yields them. *)
Fixpoint tokens (fuel : nat) (s : string) : list string :=
  match fuel with
  | O => []
  | S fuel' =>
      match C.strtok " " s with
      | None => []
      | Some (t, rest) => t :: tokens fuel' rest
      end
  end.

(** A token that is a decimal numeral. *)
Fixpoint all_digits (s : string) : bool :=
  match s with
  | EmptyString => true
  | String c s' => isdigit c && all_digits s'
  end.

Definition numeric (s : string) : bool :=
  match s with
  | EmptyString => false
  | _ => all_digits s
  end.

(** A positional step leaves a value alone once it differs from its
    default. *)
Definition keeps (g g' : config) : Prop :=
  (log_file g <> None -> log_file g' = log_file g)
  /\ (expire_minutes g <> (-1)%Z -> expire_minutes g' = expire_minutes g)
  /\ (incoming_warning_threshold g <> 0%N ->
      incoming_warning_threshold g' = incoming_warning_threshold g)
  /\ (incoming_critical_threshold g <> 0%N ->
      incoming_critical_threshold g' = incoming_critical_threshold g)
  /\ (outgoing_warning_threshold g <> 0%N ->
      outgoing_warning_threshold g' = outgoing_warning_threshold g)
  /\ (outgoing_critical_threshold g <> 0%N ->
      outgoing_critical_threshold g' = outgoing_critical_threshold g).

(** The ways [process_arguments] can leave the option loop. *)
Inductive option_exit : outcome -> Prop :=
| exit_version : option_exit (Exit STATE_OK Revision)
| exit_help : option_exit (Exit STATE_OK Help)
| exit_invalid : option_exit (usage ("Invalid argument" ++ nl)).

(** ** Sample data *)

(** A record and two configurations for the examples: all thresholds at
    their default, and thresholds of 500 (warning) and 1000 (critical). *)
Definition sample_record : log_record := mk_record 100 500 600 700 800.
Definition sample_config : config := set_log_file (Some "log") (set_expire_minutes 0 defaults).
Definition sample_thresholds : config :=
  mk_config (Some "log") 5 true 400 500 2000 3000.

Definition stale_config : config := mk_config (Some "log") 5 true 0 0 0 0.

(** A file system with one readable file, named [log]. *)
Definition only_log (content : string) : string -> option string :=
  fun path => if String.eqb path "log" then Some content else None.

(** The log of the specification's example, a header and one line of data,
    and the same log with one more line. *)
Definition two_line_log : string :=
  "header" ++ nl ++ "100 500 600 700 800" ++ nl.

Definition three_line_log : string :=
  two_line_log ++ "40 510 610 710 810" ++ nl.

(** A log whose second line holds five words and no number. *)
Definition wordy_log : string :=
  "header" ++ nl ++ "abc def ghi jkl mno" ++ nl ++ "40 510 610 710 810" ++ nl.

(** A token in which [strtoul] finds no number: it starts with something
    other than white space, a sign or a digit. *)
Definition no_number (s : string) : bool :=
  match s with
  | EmptyString => true
  | String c _ =>
      negb (isspace c || isdigit c || Ascii.eqb c "+" || Ascii.eqb c "-")
  end.

(** Command lines for the examples: the legacy positional form of the
    header comment, options followed by a positional mode, options without a
    log file, options whose numbers do not parse, and thresholds given both
    ways. *)
Definition legacy_argv : list string :=
  ["check_mrtgtraf"; "log"; "10"; "MAX"; "1"; "2"; "3"; "4"].

Definition flag_then_slot_argv : list string :=
  ["check_mrtgtraf"; "-a"; "MAX"; "-F"; "log"; "-e"; "5"; "AVG"].



Definition nonzero_flag_argv : list string :=
  ["check_mrtgtraf"; "-F"; "log"; "-e"; "5"; "-w"; "3,0"; "7"].

Definition zero_flag_argv : list string :=
  ["check_mrtgtraf"; "-F"; "log"; "-e"; "5"; "-w"; "0,0"; "-c"; "9,9"; "7"].

(** A record whose averages and maxima differ. *)
Definition quiet_record : log_record := mk_record 100 0 0 700 800.

(** ** Notions used in the further properties *)

(** An element of [argv] that the option scanner passes over: it does not
    start with a dash, or it is a dash alone. *)
Definition nonoption (a : string) : bool :=
  match a with
  | String "-" (String _ _) => false
  | _ => true
  end.

(** The messages of the four calls of [usage]. *)
Definition usage_messages : list string :=
  [ "Invalid command arguments supplied" ++ nl;
    "Invalid argument" ++ nl;
    "Unable to open MRTG log file" ++ nl;
    "Unable to process MRTG log file" ++ nl ].

(** The number that [fmt_f1] prints, as a rational. *)
Definition shown (q : Q) : Q := inject_Z (Z.of_N (tenths q)) / 10.

Fixpoint no_newline (s : string) : bool :=
  match s with
  | EmptyString => true
  | String c s' => negb (Ascii.eqb c (ascii_of_nat 10)) && no_newline s'
  end.

(** Text at which a run of digits ends. *)
Definition nondigit_start (s : string) : bool :=
  match s with
  | EmptyString => true
  | String c _ => negb (isdigit c)
  end.

(** A run of blanks, and a line of data as MRTG writes it: five numerals
    with one blank between them. *)
Fixpoint blanks (k : nat) : string :=
  match k with
  | O => EmptyString
  | S k' => String " " (blanks k')
  end.

Definition data_line (ts ai ao mi mo : N) : string :=
  fmt_u ts ++ " " ++ fmt_u ai ++ " " ++ fmt_u ao ++ " " ++ fmt_u mi
  ++ " " ++ fmt_u mo.

(** The values of a configuration and of a record within their C types. *)
Definition config_in_range (g : config) : Prop :=
  (C.INT_MIN <= expire_minutes g <= C.INT_MAX)%Z
  /\ (incoming_warning_threshold g <= C.ULONG_MAX)%N
  /\ (incoming_critical_threshold g <= C.ULONG_MAX)%N
  /\ (outgoing_warning_threshold g <= C.ULONG_MAX)%N
  /\ (outgoing_critical_threshold g <= C.ULONG_MAX)%N.

Definition record_in_range (r : log_record) : Prop :=
  (C.LONG_MIN <= timestamp r <= C.LONG_MAX)%Z
  /\ (average_incoming_rate r <= C.ULONG_MAX)%N
  /\ (average_outgoing_rate r <= C.ULONG_MAX)%N
  /\ (maximum_incoming_rate r <= C.ULONG_MAX)%N
  /\ (maximum_outgoing_rate r <= C.ULONG_MAX)%N.

(** ** Notions used to tie the printed text and the exits to the program *)

(** The number of tenths that a text made of digits, a point and one digit
    denotes: what a reader of the message takes the printed value to be. *)
Definition read_f1 (s : string) : option N :=
  let '(i, count, rest) := C.digits 0 0 s in
  match count, rest with
  | S _, String "." (String d EmptyString) =>
      if isdigit d then Some (10 * i + digit_value d)%N else None
  | _, _ => None
  end.



(** A log whose data is dated some four thousand years before 1970. *)
Definition ancient_log : string :=
  "header" ++ nl ++ "-130000000000 1 2 3 4" ++ nl ++ "40 510 610 710 810" ++ nl.

Definition ancient_argv : list string :=
  ["check_mrtgtraf"; "-F"; "log"; "-e"; "5"].

(** * Properties *)

(** ** The C library functions on examples *)

Example strtoul_trailing_newline : C.strtoul ("800" ++ nl) = 800%N.
Proof. reflexivity. Qed.

Example strtoul_non_numeric : C.strtoul "abc" = 0%N.
Proof. reflexivity. Qed.

Example strtoul_minus : C.strtoul " -5" = 18446744073709551611%N.
Proof. reflexivity. Qed.

Example strtoul_overflow : C.strtoul "99999999999999999999" = C.ULONG_MAX.
Proof. reflexivity. Qed.

Example atoi_leading_digits : C.atoi "12x" = 12%Z.
Proof. reflexivity. Qed.

Example atoi_non_numeric : C.atoi "abc" = 0%Z.
Proof. reflexivity. Qed.

Example sscanf_pair : C.sscanf_lu_lu "10,20" = (Some 10%N, Some 20%N).
Proof. reflexivity. Qed.

Example sscanf_single : C.sscanf_lu_lu "10" = (Some 10%N, None).
Proof. reflexivity. Qed.

Example sscanf_nothing : C.sscanf_lu_lu "x,20" = (None, None).
Proof. reflexivity. Qed.

Example strtok_fields : C.strtok " " "100 500" = Some ("100", "500").
Proof. reflexivity. Qed.

Example strtok_exhausted : C.strtok " " "  " = None.
Proof. reflexivity. Qed.

Example fgets_line :
  C.fgets 1023 ("header" ++ nl ++ "rest") = Some ("header" ++ nl, "rest").
Proof. reflexivity. Qed.

Example getopt_permutes :
  Getopt.getopt_long ["check_mrtgtraf"; "log"; "-e"; "5"; "--aggregation=MAX"; "10"]
  = ([Getopt.WithArg "e" "5"; Getopt.WithArg "a" "MAX"], ["log"; "10"]).
Proof. reflexivity. Qed.

Example getopt_unknown :
  Getopt.getopt_long ["check_mrtgtraf"; "-x"] = ([Getopt.Flag "?"], []).
Proof. reflexivity. Qed.

Example getopt_abbreviation :
  Getopt.getopt_long ["check_mrtgtraf"; "--log"; "f"; "--ver"]
  = ([Getopt.WithArg "F" "f"; Getopt.Flag "?"], []).
Proof. reflexivity. Qed.

Example fmt_f1_half_even : fmt_f1 (1 # 4) = "0.2" /\ fmt_f1 (3 # 4) = "0.8".
Proof. split; reflexivity. Qed.

Example adjusted_kilobytes :
  speed_rating 1536 = "KB/s" /\ fmt_f1 (adjusted_rate 1536) = "1.5".
Proof. split; reflexivity. Qed.

(** ** Strings *)

Lemma append_assoc (a b c : string) : (a ++ b) ++ c = a ++ b ++ c.
Proof. induction a as [|x a IH]; simpl; [reflexivity | now rewrite IH]. Qed.

(** ** Machine arithmetic *)

Lemma to_int_small (z : Z) :
  (C.INT_MIN <= z <= C.INT_MAX)%Z -> C.to_int z = z.
Proof.
  unfold C.to_int, C.INT_MIN, C.INT_MAX. intros H.
  rewrite Z.mod_small; lia.
Qed.

(** Reduction to an [int] never enlarges a number that is not negative. *)
Lemma to_int_le (z : Z) : (0 <= z)%Z -> (C.to_int z <= z)%Z.
Proof.
  intros Hz. destruct (Z_lt_le_dec z (2 ^ 31)) as [Hlt | Hge].
  - rewrite to_int_small; unfold C.INT_MIN, C.INT_MAX; lia.
  - unfold C.to_int.
    pose proof (Z.mod_pos_bound (z + 2 ^ 31) (2 ^ 32) ltac:(lia)). lia.
Qed.

Lemma to_long_small (z : Z) :
  (C.LONG_MIN <= z <= C.LONG_MAX)%Z -> C.to_long z = z.
Proof.
  unfold C.to_long, C.LONG_MIN, C.LONG_MAX. intros H.
  rewrite Z.mod_small; lia.
Qed.

(** The program's age of the data is the difference of the two times
    whenever that difference is a [time_t]. *)
Lemma age_exact (now : Z) (r : log_record) :
  (C.LONG_MIN <= now - timestamp r <= C.LONG_MAX)%Z ->
  age now r = (now - timestamp r)%Z.
Proof. apply to_long_small. Qed.


(** ** The evaluator *)

Lemma state_eqb_eq (a b : state) : state_eqb a b = true <-> a = b.
Proof. destruct a, b; split; intro H; try reflexivity; discriminate H. Qed.

(** The status of an evaluation of data that has not expired is the result of
    the threshold tests, and the text is the traffic message with its
    prefix when all is well. *)
Lemma evaluate_fresh (g : config) (r : log_record) (now : Z) :
  expired g r now = false ->
  evaluate g r now =
    Exit (check_rates g r)
      (Text ((if state_eqb (check_rates g r) STATE_OK then "Traffic ok - " else "")
             ++ traffic_message g r ++ nl)).
Proof.
  intros H. unfold evaluate. rewrite H.
  destruct (state_eqb (check_rates g r) STATE_OK) eqn:E; reflexivity.
Qed.

Lemma evaluate_expired (g : config) (r : log_record) (now : Z) :
  expired g r now = true ->
  evaluate g r now = Exit STATE_WARNING (Text (expired_message g r now)).
Proof. intros H. unfold evaluate. rewrite H. reflexivity. Qed.

(** The threshold tests, as order relations on the raw rates. *)
Lemma check_rates_critical (g : config) (r : log_record) :
  check_rates g r = STATE_CRITICAL <->
  (incoming_critical_threshold g < incoming_rate g r
   \/ outgoing_critical_threshold g < outgoing_rate g r)%N.
Proof.
  unfold check_rates.
  destruct (N.ltb_spec (incoming_critical_threshold g) (incoming_rate g r));
  destruct (N.ltb_spec (outgoing_critical_threshold g) (outgoing_rate g r));
  destruct (N.ltb_spec (incoming_warning_threshold g) (incoming_rate g r));
  destruct (N.ltb_spec (outgoing_warning_threshold g) (outgoing_rate g r));
  simpl; split; intros Hx; try discriminate Hx; try reflexivity; lia.
Qed.

Lemma check_rates_warning (g : config) (r : log_record) :
  check_rates g r = STATE_WARNING <->
  (incoming_rate g r <= incoming_critical_threshold g
   /\ outgoing_rate g r <= outgoing_critical_threshold g
   /\ (incoming_warning_threshold g < incoming_rate g r
       \/ outgoing_warning_threshold g < outgoing_rate g r))%N.
Proof.
  unfold check_rates.
  destruct (N.ltb_spec (incoming_critical_threshold g) (incoming_rate g r));
  destruct (N.ltb_spec (outgoing_critical_threshold g) (outgoing_rate g r));
  destruct (N.ltb_spec (incoming_warning_threshold g) (incoming_rate g r));
  destruct (N.ltb_spec (outgoing_warning_threshold g) (outgoing_rate g r));
  simpl; split; intros Hx; try discriminate Hx; try reflexivity; lia.
Qed.

Lemma check_rates_ok (g : config) (r : log_record) :
  check_rates g r = STATE_OK <->
  (incoming_rate g r <= incoming_critical_threshold g
   /\ outgoing_rate g r <= outgoing_critical_threshold g
   /\ incoming_rate g r <= incoming_warning_threshold g
   /\ outgoing_rate g r <= outgoing_warning_threshold g)%N.
Proof.
  unfold check_rates.
  destruct (N.ltb_spec (incoming_critical_threshold g) (incoming_rate g r));
  destruct (N.ltb_spec (outgoing_critical_threshold g) (outgoing_rate g r));
  destruct (N.ltb_spec (incoming_warning_threshold g) (incoming_rate g r));
  destruct (N.ltb_spec (outgoing_warning_threshold g) (outgoing_rate g r));
  simpl; split; intros Hx; try discriminate Hx; try reflexivity; lia.
Qed.

Lemma check_rates_never_unknown (g : config) (r : log_record) :
  check_rates g r <> STATE_UNKNOWN.
Proof.
  unfold check_rates.
  destruct (_ || _); [discriminate|]. destruct (_ || _); discriminate.
Qed.

(** C1.  When the data has not expired, the status is CRITICAL exactly when
    the selected raw incoming rate is strictly above [incoming_critical] or
    the selected raw outgoing rate is strictly above [outgoing_critical];
    otherwise it is WARNING exactly when a raw rate is strictly above its
    warning threshold; otherwise it is OK.  A rate equal to its critical
    threshold does not make the status CRITICAL by itself.  The rates
    compared are the raw ones ([incoming_rate], [outgoing_rate]), not the
    values [adjusted_rate] that are displayed. *)
Theorem C1_status_decision (g : config) (r : log_record) (now : Z) :
  expired g r now = false ->
  let i := incoming_rate g r in
  let o := outgoing_rate g r in
  exists st,
    status (evaluate g r now) = Some st
    /\ (st = STATE_CRITICAL <->
        (incoming_critical_threshold g < i \/ outgoing_critical_threshold g < o)%N)
    /\ (st = STATE_WARNING <->
        (i <= incoming_critical_threshold g /\ o <= outgoing_critical_threshold g
         /\ (incoming_warning_threshold g < i \/ outgoing_warning_threshold g < o))%N)
    /\ (st = STATE_OK <->
        (i <= incoming_critical_threshold g /\ o <= outgoing_critical_threshold g
         /\ i <= incoming_warning_threshold g /\ o <= outgoing_warning_threshold g)%N)
    /\ (i = incoming_critical_threshold g -> (o <= outgoing_critical_threshold g)%N ->
        st <> STATE_CRITICAL).
Proof.
  intros H i o. exists (check_rates g r).
  rewrite (evaluate_fresh g r now H). simpl.
  split; [reflexivity|].
  split; [apply check_rates_critical|].
  split; [apply check_rates_warning|].
  split; [apply check_rates_ok|].
  intros Hi Ho Hc. apply check_rates_critical in Hc. fold i o in Hc. lia.
Qed.

Lemma C1_status_decision_witness :
  exists st,
    status (evaluate sample_thresholds sample_record 110) = Some st
    /\ (st = STATE_CRITICAL <-> (500 < 500 \/ 3000 < 600)%N)
    /\ (st = STATE_WARNING <->
        (500 <= 500 /\ 600 <= 3000 /\ (400 < 500 \/ 2000 < 600))%N)
    /\ (st = STATE_OK <->
        (500 <= 500 /\ 600 <= 3000 /\ 500 <= 400 /\ 600 <= 2000)%N)
    /\ (500%N = 500%N -> (600 <= 3000)%N -> st <> STATE_CRITICAL).
Proof.
  exact (C1_status_decision sample_thresholds sample_record 110 eq_refl).
Defined.

(** The comparison is with the raw rate: 2048 bytes per second are displayed
    as 2.0 KB/s, and are above a critical threshold of 100. *)
Example raw_rate_is_compared :
  evaluate (mk_config (Some "log") 0 true 100 100 100 100)
           (mk_record 100 2048 0 0 0) 110
  = Exit STATE_CRITICAL (Text ("Ave. In = 2.0 KB/s, Ave. Out = 0.0 B/s" ++ nl)).
Proof. reflexivity. Qed.

(** C10.  With all four thresholds at 0 and data that has not expired, the
    status is OK exactly when both selected rates are 0, and CRITICAL as soon
    as one of them is positive; it is never WARNING. *)
Theorem C10_default_thresholds (g : config) (r : log_record) (now : Z) :
  incoming_warning_threshold g = 0%N ->
  incoming_critical_threshold g = 0%N ->
  outgoing_warning_threshold g = 0%N ->
  outgoing_critical_threshold g = 0%N ->
  expired g r now = false ->
  exists st,
    status (evaluate g r now) = Some st
    /\ (st = STATE_OK <-> incoming_rate g r = 0%N /\ outgoing_rate g r = 0%N)
    /\ ((0 < incoming_rate g r \/ 0 < outgoing_rate g r)%N -> st = STATE_CRITICAL)
    /\ st <> STATE_WARNING.
Proof.
  intros Hiw Hic How Hoc H. exists (check_rates g r).
  rewrite (evaluate_fresh g r now H). simpl.
  split; [reflexivity|].
  split; [|split].
  - rewrite check_rates_ok, Hiw, Hic, How, Hoc. lia.
  - rewrite check_rates_critical, Hic, Hoc. tauto.
  - rewrite check_rates_warning, Hiw, Hic, How, Hoc. lia.
Qed.

Lemma C10_default_thresholds_witness :
  exists st,
    status (evaluate sample_config sample_record 110) = Some st
    /\ (st = STATE_OK <->
        incoming_rate sample_config sample_record = 0%N
        /\ outgoing_rate sample_config sample_record = 0%N)
    /\ ((0 < incoming_rate sample_config sample_record
         \/ 0 < outgoing_rate sample_config sample_record)%N -> st = STATE_CRITICAL)
    /\ st <> STATE_WARNING.
Proof.
  exact (C10_default_thresholds sample_config sample_record 110
           eq_refl eq_refl eq_refl eq_refl eq_refl).
Defined.

(** *** Staleness *)

Lemma expired_iff (g : config) (r : log_record) (now : Z) :
  expired g r now = true <->
  (0 < expire_minutes g /\ C.to_int (expire_minutes g * 60) < age now r)%Z.
Proof.
  unfold expired. rewrite andb_true_iff, !Z.ltb_lt. tauto.
Qed.

Lemma not_expired_when_disabled (g : config) (r : log_record) (now : Z) :
  (expire_minutes g <= 0)%Z -> expired g r now = false.
Proof.
  intros H. unfold expired.
  destruct (Z.ltb_spec 0 (expire_minutes g)); [lia | reflexivity].
Qed.

(** C3, as stated, fails: the second line of this log gives the timestamp
    -130000000000, the clock is 1700000000 and the expiry is 5 minutes, so
    the age is above [expire_minutes * 60] and is 2195000000 whole minutes;
    the run ends with WARNING, and the message gives -2099967296 minutes,
    the count cut to an [int]. *)
Lemma C3_counterexample :
  process_arguments ancient_argv = inl (OK, mk_config (Some "log") 5 true 0 0 0 0)
  /\ read_log 1024 ancient_log = Read 3 (mk_record (-130000000000) 1 2 3 4)
  /\ (1700000000 - (-130000000000) > 5 * 60)%Z
  /\ ((1700000000 - (-130000000000)) / 60 = 2195000000)%Z
  /\ main 1024 (only_log ancient_log) ancient_argv 1700000000
     = Exit STATE_WARNING
         (Text ("MRTG data has expired (-2099967296 minutes old)" ++ nl)).
Proof.
  split; [reflexivity|]. split; [reflexivity|]. split; [reflexivity|].
  split; [reflexivity|]. vm_compute. reflexivity.
Qed.

(** C3, amended.  With [expire_minutes > 0] and an age of the data
    ([current_time - timestamp], computed in [time_t]: it is the difference
    itself whenever that is a [time_t]) above [expire_minutes * 60], the
    program ends with WARNING and the message
    "MRTG data has expired (N minutes old)", N being the age divided by 60
    and converted to [int]: the age in whole minutes whenever that fits an
    [int].  Neither the rates nor the thresholds occur in that outcome.  With
    [expire_minutes] at most 0 (unset is -1), the data never counts as
    expired and the outcome is that of the rate tests. *)
Theorem C3_staleness (g : config) (r : log_record) (now : Z) :
  ((0 < expire_minutes g)%Z ->
   (age now r > expire_minutes g * 60)%Z ->
     evaluate g r now =
       Exit STATE_WARNING
         (Text ("MRTG data has expired ("
                ++ fmt_d (C.to_int (age now r / 60)) ++ " minutes old)" ++ nl))
     /\ ((age now r / 60 <= C.INT_MAX)%Z ->
         C.to_int (age now r / 60) = (age now r / 60)%Z))
  /\ ((expire_minutes g <= 0)%Z ->
      expired g r now = false
      /\ status (evaluate g r now) = Some (check_rates g r))
  /\ ((C.LONG_MIN <= now - timestamp r <= C.LONG_MAX)%Z ->
      age now r = (now - timestamp r)%Z).
Proof.
  split; [|split].
  - intros He Hage.
    assert (Hpos : (0 <= expire_minutes g * 60)%Z) by lia.
    pose proof (to_int_le _ Hpos) as Hle.
    assert (Hx : expired g r now = true) by (apply expired_iff; lia).
    rewrite (evaluate_expired g r now Hx). unfold expired_message.
    rewrite Z.quot_div_nonneg by lia.
    split; [reflexivity|].
    intros Hfit. apply to_int_small. unfold C.INT_MIN.
    assert (0 <= age now r / 60)%Z by (apply Z.div_pos; lia). lia.
  - intros He. pose proof (not_expired_when_disabled g r now He) as Hx.
    split; [exact Hx|]. rewrite (evaluate_fresh g r now Hx). reflexivity.
  - apply age_exact.
Qed.

(** The example of the specification: five minutes of grace, data of ten
    minutes ago. *)
Lemma C3_staleness_witness :
  (evaluate stale_config sample_record 700
   = Exit STATE_WARNING (Text ("MRTG data has expired (10 minutes old)" ++ nl))
   /\ C.to_int (age 700 sample_record / 60) = (age 700 sample_record / 60)%Z)
  /\ expired sample_config sample_record 700 = false
  /\ age 700 sample_record = (700 - timestamp sample_record)%Z.
Proof.
  split; [split|split].
  - exact (proj1 (proj1 (C3_staleness stale_config sample_record 700)
                    ltac:(reflexivity) ltac:(reflexivity))).
  - exact (proj2 (proj1 (C3_staleness stale_config sample_record 700)
                    ltac:(reflexivity) ltac:(reflexivity))
             ltac:(vm_compute; discriminate)).
  - exact (proj1 (proj1 (proj2 (C3_staleness sample_config sample_record 700))
                    ltac:(vm_compute; discriminate))).
  - exact (proj2 (proj2 (C3_staleness stale_config sample_record 700))
             ltac:(vm_compute; split; discriminate)).
Defined.

(** *** Units and displayed values *)

Lemma round_half_even_error (n d : N) :
  (0 < d)%N ->
  (2 * (round_half_even n d * d) <= 2 * n + d
   /\ 2 * n <= 2 * (round_half_even n d * d) + d)%N.
Proof.
  intros Hd. unfold round_half_even.
  pose proof (N.div_mod' n d) as Hn.
  pose proof (N.mod_lt n d ltac:(lia)) as Hm.
  generalize dependent (n mod d)%N. generalize dependent (n / d)%N.
  intros q m Hn Hm. subst n.
  destruct (N.ltb_spec (2 * m) d);
    [|destruct (N.ltb_spec d (2 * m));
      [|destruct (N.even q)]]; nia.
Qed.

Lemma double_of_ulong_exact (r : N) :
  (r < 2 ^ 53)%N -> double_of_ulong r = r.
Proof.
  intros H. unfold double_of_ulong.
  destruct (N.ltb_spec r (2 ^ 53)); [reflexivity | lia].
Qed.

(** The conversion to [double] is off by at most the fraction 2^-53 of the
    number converted. *)
Lemma double_of_ulong_error (r : N) :
  (2 ^ 53 * double_of_ulong r <= (2 ^ 53 + 1) * r
   /\ (2 ^ 53 - 1) * r <= 2 ^ 53 * double_of_ulong r)%N.
Proof.
  unfold double_of_ulong.
  destruct (N.ltb_spec r (2 ^ 53)) as [Hlt | Hge]; [lia|].
  assert (Hr : (0 < r)%N) by (change (2 ^ 53)%N with 9007199254740992%N in Hge; lia).
  assert (Hlog : (53 <= N.log2 r)%N) by (apply N.log2_le_pow2; assumption).
  set (e := (N.log2 r - 52)%N).
  assert (Hulp : (0 < 2 ^ e)%N) by (apply N.neq_0_lt_0, N.pow_nonzero; discriminate).
  assert (Hscale : (2 ^ 52 * 2 ^ e <= r)%N).
  { rewrite <- N.pow_add_r. replace (52 + e)%N with (N.log2 r) by (unfold e; lia).
    apply (N.log2_spec r Hr). }
  pose proof (round_half_even_error r (2 ^ e) Hulp) as [H1 H2].
  change (2 ^ 53)%N with 9007199254740992%N.
  change (2 ^ 52)%N with 4503599627370496%N in Hscale.
  remember (round_half_even r (2 ^ e) * 2 ^ e)%N as d.
  remember (2 ^ e)%N as ulp.
  lia.
Qed.

Lemma speed_rating_cases (r : N) :
  (speed_rating r = "B/s" <-> (r < 1024)%N)
  /\ (speed_rating r = "KB/s" <-> (1024 <= r < 1048576)%N)
  /\ (speed_rating r = "MB/s" <-> (1048576 <= r)%N).
Proof.
  unfold speed_rating. change (1024 * 1024)%N with 1048576%N.
  destruct (N.ltb_spec r 1024); [|destruct (N.ltb_spec r 1048576)];
    (split; [|split]); split; intros Hx;
    try discriminate Hx; try reflexivity; lia.
Qed.

Lemma all_digits_string_of_uint (d : Decimal.uint) :
  all_digits (NilEmpty.string_of_uint d) = true.
Proof. induction d; simpl; auto. Qed.

Lemma numeric_fmt_u (n : N) : numeric (fmt_u n) = true.
Proof.
  unfold fmt_u, NilZero.string_of_uint.
  destruct (N.to_uint n) eqn:E; try reflexivity;
    rewrite <- E; unfold numeric;
    pose proof (all_digits_string_of_uint (N.to_uint n)) as Hd;
    rewrite E in *; simpl in *; exact Hd.
Qed.

Lemma fmt_u_digit (n : N) :
  (n < 10)%N -> exists c, fmt_u n = String c EmptyString /\ isdigit c = true.
Proof.
  intros H.
  rewrite <- (N2Nat.id n).
  assert (Hk : (N.to_nat n < 10)%nat) by lia.
  generalize dependent (N.to_nat n). clear H n. intros k Hk.
  destruct k as [|[|[|[|[|[|[|[|[|[|k]]]]]]]]]];
    try (eexists; split; reflexivity).
  lia.
Qed.

(** [%0.1f] prints a numeral, a point and exactly one digit. *)
Lemma fmt_f1_shape (q : Q) :
  exists int_part digit,
    fmt_f1 q = int_part ++ "." ++ String digit EmptyString
    /\ numeric int_part = true /\ isdigit digit = true.
Proof.
  unfold fmt_f1.
  destruct (fmt_u_digit (tenths q mod 10)) as [c [Hc Hd]].
  { apply N.mod_lt. discriminate. }
  exists (fmt_u (tenths q / 10)), c. rewrite Hc.
  split; [reflexivity|]. split; [apply numeric_fmt_u | exact Hd].
Qed.

(** The units, the values reported and the shape of what is printed. *)
Lemma unit_normalization_values (r : N) :
  (speed_rating r = "B/s" <-> (r < 1024)%N)
  /\ (speed_rating r = "KB/s" <-> (1024 <= r < 1048576)%N)
  /\ (speed_rating r = "MB/s" <-> (1048576 <= r)%N)
  /\ ((r < 1024)%N -> adjusted_rate r == inject_Z (Z.of_N r))
  /\ ((1024 <= r < 1048576)%N -> adjusted_rate r == inject_Z (Z.of_N r) / 1024)
  /\ ((1048576 <= r)%N ->
      adjusted_rate r == inject_Z (Z.of_N (double_of_ulong r)) / 1048576)
  /\ ((r < 2 ^ 53)%N -> double_of_ulong r = r)
  /\ (2 ^ 53 * double_of_ulong r <= (2 ^ 53 + 1) * r
      /\ (2 ^ 53 - 1) * r <= 2 ^ 53 * double_of_ulong r)%N
  /\ (exists int_part digit,
        fmt_f1 (adjusted_rate r) = int_part ++ "." ++ String digit EmptyString
        /\ numeric int_part = true /\ isdigit digit = true).
Proof.
  destruct (speed_rating_cases r) as [Hb [Hk Hm]].
  repeat (split; [assumption|]).
  split; [|split; [|split; [|split; [|split]]]].
  - intros H. unfold adjusted_rate.
    destruct (N.ltb_spec r 1024); [|lia].
    rewrite double_of_ulong_exact; [reflexivity|].
    change (2 ^ 53)%N with 9007199254740992%N. lia.
  - intros H. unfold adjusted_rate. change (1024 * 1024)%N with 1048576%N.
    destruct (N.ltb_spec r 1024); [lia|].
    destruct (N.ltb_spec r 1048576); [|lia].
    rewrite double_of_ulong_exact; [reflexivity|].
    change (2 ^ 53)%N with 9007199254740992%N. lia.
  - intros H. unfold adjusted_rate. change (1024 * 1024)%N with 1048576%N.
    destruct (N.ltb_spec r 1024); [lia|].
    destruct (N.ltb_spec r 1048576); [lia|].
    field.
  - apply double_of_ulong_exact.
  - apply double_of_ulong_error.
  - apply fmt_f1_shape.
Qed.

(** ** The log reader *)

Section Reader.

Variable MAX_INPUT_BUFFER : nat.

#[local] Abbreviation next_line := (C.fgets (MAX_INPUT_BUFFER - 1)).

(** The read loop takes at most three turns: from line [line] on, any fuel
    that covers the distance to line 3 gives a result, and more fuel gives
    the same one. *)
Lemma read_loop_enough (fuel : nat) :
  forall (fp : string) (line : nat) (r : log_record),
    (1 <= fuel)%nat -> (3 <= fuel + line)%nat ->
    read_loop MAX_INPUT_BUFFER fuel fp line r <> OutOfFuel
    /\ forall k, read_loop MAX_INPUT_BUFFER (fuel + k) fp line r
                 = read_loop MAX_INPUT_BUFFER fuel fp line r.
Proof.
  induction fuel as [|fuel IH]; intros fp line r H1 H3; [lia|].
  simpl. destruct (next_line fp) as [[buf fp']|]; [|split; [discriminate | reflexivity]].
  destruct line as [|[|line]]; simpl.
  - apply IH; lia.
  - destruct (parse_line buf) as [r'|]; [|split; [discriminate | reflexivity]].
    apply IH; lia.
  - split; [discriminate | reflexivity].
Qed.

(** X1.  The reader always comes to an end: three turns of the loop give a
    result, and more fuel gives the same one. *)
Lemma read_log_total (content : string) :
  read_log MAX_INPUT_BUFFER content <> OutOfFuel
  /\ forall k, read_loop MAX_INPUT_BUFFER (3 + k) content 0 no_record
               = read_log MAX_INPUT_BUFFER content.
Proof. apply read_loop_enough; lia. Qed.

(** What the reader returns, by the lines [fgets] delivers. *)
Lemma read_log_lines (content : string) :
  read_log MAX_INPUT_BUFFER content =
    match next_line content with
    | None => Read 0 no_record
    | Some (_, fp1) =>
        match next_line fp1 with
        | None => Read 1 no_record
        | Some (line2, fp2) =>
            match parse_line line2 with
            | None => ReadUndefined
            | Some r =>
                match next_line fp2 with
                | None => Read 2 r
                | Some _ => Read 3 r
                end
            end
        end
    end.
Proof.
  unfold read_log. simpl.
  destruct (next_line content) as [[l1 fp1]|]; [|reflexivity].
  destruct (next_line fp1) as [[l2 fp2]|]; [|reflexivity].
  destruct (parse_line l2) as [r|]; [|reflexivity].
  destruct (next_line fp2) as [[l3 fp3]|]; reflexivity.
Qed.

Variable fopen : string -> option string.

#[local] Abbreviation run_log := (run MAX_INPUT_BUFFER fopen).

(** A log of exactly two lines is turned away although its record was
    read. *)
Lemma run_two_lines (g : config) (now : Z) (path content l1 fp1 l2 fp2 : string)
    (r : log_record) :
  log_file g = Some path -> fopen path = Some content ->
  next_line content = Some (l1, fp1) -> next_line fp1 = Some (l2, fp2) ->
  parse_line l2 = Some r -> next_line fp2 = None ->
  run_log g now = usage ("Unable to process MRTG log file" ++ nl).
Proof.
  intros Hg Hf H1 H2 Hp H3. unfold run.
  rewrite Hg, Hf, read_log_lines, H1, H2, Hp, H3. reflexivity.
Qed.

(** With a third line to read, the record of the second line is
    evaluated. *)
Lemma run_three_lines (g : config) (now : Z)
    (path content l1 fp1 l2 fp2 l3 fp3 : string) (r : log_record) :
  log_file g = Some path -> fopen path = Some content ->
  next_line content = Some (l1, fp1) -> next_line fp1 = Some (l2, fp2) ->
  parse_line l2 = Some r -> next_line fp2 = Some (l3, fp3) ->
  run_log g now = evaluate g r now.
Proof.
  intros Hg Hf H1 H2 Hp H3. unfold run.
  rewrite Hg, Hf, read_log_lines, H1, H2, Hp, H3. reflexivity.
Qed.

(** X2.  Whenever a record is evaluated, three lines were read and the record
    is that of the second; otherwise the run ends with the UNKNOWN exit or is
    undefined. *)
Lemma run_evaluates_second_line (g : config) (now : Z) (path content : string) :
  log_file g = Some path -> fopen path = Some content ->
  run_log g now = usage ("Unable to process MRTG log file" ++ nl)
  \/ run_log g now = Undefined
  \/ exists l1 fp1 l2 fp2 l3 fp3 r,
       next_line content = Some (l1, fp1) /\ next_line fp1 = Some (l2, fp2)
       /\ next_line fp2 = Some (l3, fp3) /\ parse_line l2 = Some r
       /\ run_log g now = evaluate g r now.
Proof.
  intros Hg Hf. unfold run. rewrite Hg, Hf, read_log_lines.
  destruct (next_line content) as [[l1 fp1]|] eqn:E1; [|left; reflexivity].
  destruct (next_line fp1) as [[l2 fp2]|] eqn:E2; [|left; reflexivity].
  destruct (parse_line l2) as [r|] eqn:Ep; [|right; left; reflexivity].
  destruct (next_line fp2) as [[l3 fp3]|] eqn:E3; [|left; reflexivity].
  right; right. exists l1, fp1, l2, fp2, l3, fp3, r.
  repeat apply conj; first [assumption | reflexivity].
Qed.

End Reader.

(** The reader on the three-line log: the disjunction of
    [run_evaluates_second_line] at that log. *)
Lemma run_evaluates_second_line_witness :
  run 1024 (only_log three_line_log) sample_config 110
  = usage ("Unable to process MRTG log file" ++ nl)
  \/ run 1024 (only_log three_line_log) sample_config 110 = Undefined
  \/ exists l1 fp1 l2 fp2 l3 fp3 r,
       C.fgets (1024 - 1) three_line_log = Some (l1, fp1)
       /\ C.fgets (1024 - 1) fp1 = Some (l2, fp2)
       /\ C.fgets (1024 - 1) fp2 = Some (l3, fp3)
       /\ parse_line l2 = Some r
       /\ run 1024 (only_log three_line_log) sample_config 110
          = evaluate sample_config r 110.
Proof.
  exact (run_evaluates_second_line 1024 (only_log three_line_log)
           sample_config 110 "log" three_line_log eq_refl eq_refl).
Defined.

(** *** The fields of the second line *)

Lemma parse_line_tokens (line t1 t2 t3 t4 t5 : string) :
  tokens 5 (c_str line) = [t1; t2; t3; t4; t5] ->
  parse_line line =
    Some (mk_record (C.to_long (Z.of_N (C.strtoul t1)))
            (C.strtoul t2) (C.strtoul t3) (C.strtoul t4) (C.strtoul t5)).
Proof.
  unfold parse_line, next_field. simpl.
  destruct (C.strtok " " (c_str line)) as [[a1 s1]|]; [|discriminate].
  destruct (C.strtok " " s1) as [[a2 s2]|]; [|discriminate].
  destruct (C.strtok " " s2) as [[a3 s3]|]; [|discriminate].
  destruct (C.strtok " " s3) as [[a4 s4]|]; [|discriminate].
  destruct (C.strtok " " s4) as [[a5 s5]|]; [|discriminate].
  intros H. injection H as -> -> -> -> ->. reflexivity.
Qed.

(** A record is parsed exactly when the line has five tokens. *)
Lemma parse_line_defined (line : string) :
  parse_line line <> None <-> List.length (tokens 5 (c_str line)) = 5%nat.
Proof.
  unfold parse_line, next_field. simpl.
  destruct (C.strtok " " (c_str line)) as [[a1 s1]|]; [|simpl; split; [congruence | discriminate]].
  destruct (C.strtok " " s1) as [[a2 s2]|]; [|simpl; split; [congruence | discriminate]].
  destruct (C.strtok " " s2) as [[a3 s3]|]; [|simpl; split; [congruence | discriminate]].
  destruct (C.strtok " " s3) as [[a4 s4]|]; [|simpl; split; [congruence | discriminate]].
  destruct (C.strtok " " s4) as [[a5 s5]|]; [|simpl; split; [congruence | discriminate]].
  simpl. split; [reflexivity | discriminate].
Qed.

(** [strtoul] reads 0 from a token that does not start with a number. *)
Lemma strtoul_no_number (t : string) :
  no_number t = true -> C.strtoul t = 0%N.
Proof.
  destruct t as [|c t]; [reflexivity|]. unfold no_number.
  rewrite negb_true_iff, !orb_false_iff. intros [[[Hs Hd] Hp] Hm].
  unfold C.strtoul. simpl C.skip_spaces. rewrite Hs.
  assert (Hsign : C.take_sign (String c t) = (false, String c t)).
  { destruct c as [[] [] [] [] [] [] [] []]; try reflexivity; discriminate. }
  rewrite Hsign. simpl C.digits. rewrite Hd. reflexivity.
Qed.

(** ** The program on the sample logs *)

(** C2.  A log of exactly two lines, a header and one line of data with its
    five fields, is not enough: the record of the second line is read, and
    the run still ends as for a log that is too short, with the UNKNOWN exit
    and the message "Unable to process MRTG log file".  The claim counts
    such a log as sufficient. *)
Theorem C2_two_line_log_rejected
    (MAX_INPUT_BUFFER : nat) (fopen : string -> option string)
    (argv : list string) (now : Z) (g : config)
    (path content l1 fp1 l2 fp2 : string) (r : log_record) :
  process_arguments argv = inl (OK, g) ->
  log_file g = Some path -> fopen path = Some content ->
  C.fgets (MAX_INPUT_BUFFER - 1) content = Some (l1, fp1) ->
  C.fgets (MAX_INPUT_BUFFER - 1) fp1 = Some (l2, fp2) ->
  parse_line l2 = Some r ->
  C.fgets (MAX_INPUT_BUFFER - 1) fp2 = None ->
  read_log MAX_INPUT_BUFFER content = Read 2 r
  /\ main MAX_INPUT_BUFFER fopen argv now
     = Exit STATE_UNKNOWN (Text ("Unable to process MRTG log file" ++ nl ++ print_usage)).
Proof.
  intros Ha Hg Hf H1 H2 Hp H3. split.
  - rewrite read_log_lines, H1, H2, Hp, H3. reflexivity.
  - unfold main. rewrite Ha.
    rewrite (run_two_lines MAX_INPUT_BUFFER fopen g now path content l1 fp1 l2 fp2 r
               Hg Hf H1 H2 Hp H3).
    reflexivity.
Qed.

Lemma C2_two_line_log_rejected_witness :
  read_log 1024 two_line_log = Read 2 sample_record
  /\ main 1024 (only_log two_line_log) ["check_mrtgtraf"; "-F"; "log"] 110
     = Exit STATE_UNKNOWN (Text ("Unable to process MRTG log file" ++ nl ++ print_usage)).
Proof.
  exact (C2_two_line_log_rejected 1024 (only_log two_line_log)
           ["check_mrtgtraf"; "-F"; "log"] 110
           (set_log_file (Some "log") defaults)
           "log" two_line_log ("header" ++ nl) ("100 500 600 700 800" ++ nl)
           ("100 500 600 700 800" ++ nl) "" sample_record
           eq_refl eq_refl eq_refl eq_refl eq_refl eq_refl eq_refl).
Defined.

(** With one more line in the log, the same record is evaluated. *)
Example three_line_log_evaluated :
  main 1024 (only_log three_line_log) ["check_mrtgtraf"; "-F"; "log"] 110
  = Exit STATE_CRITICAL (Text ("Ave. In = 500.0 B/s, Ave. Out = 600.0 B/s" ++ nl)).
Proof. vm_compute. reflexivity. Qed.

(** The message of an evaluation of data that has not expired. *)
Lemma traffic_message_template (g : config) (r : log_record) (now : Z) :
  expired g r now = false ->
  let label := if use_average g then "Ave" else "Max" in
  let prefix :=
    match check_rates g r with STATE_OK => "Traffic ok - " | _ => "" end in
  exists value_in value_out,
    printed (evaluate g r now)
    = Some (prefix ++ label ++ ". In = " ++ value_in ++ " "
            ++ speed_rating (incoming_rate g r) ++ ", " ++ label ++ ". Out = "
            ++ value_out ++ " " ++ speed_rating (outgoing_rate g r) ++ nl)
    /\ value_in = fmt_f1 (adjusted_rate (incoming_rate g r))
    /\ value_out = fmt_f1 (adjusted_rate (outgoing_rate g r)).
Proof.
  intros H label prefix.
  exists (fmt_f1 (adjusted_rate (incoming_rate g r))),
         (fmt_f1 (adjusted_rate (outgoing_rate g r))).
  split; [|split; reflexivity].
  rewrite (evaluate_fresh g r now H). unfold printed, traffic_message.
  fold label. subst prefix.
  destruct (check_rates g r); simpl state_eqb; cbv iota;
    repeat rewrite append_assoc; reflexivity.
Qed.

(** C8.  The message of an evaluation follows the one template, with "Ave"
    or "Max" as the label, values with one decimal, and "Traffic ok - " in
    front when the status is OK.  On the log of the example, a header and
    one line of data, the run does not reach the evaluation: it ends with the
    UNKNOWN exit, where the claim has CRITICAL; the record itself, once
    evaluated, gives CRITICAL and the message of the claim. *)
Theorem C8_example_log_rejected :
  (forall (g : config) (r : log_record) (now : Z),
     expired g r now = false ->
     let label := if use_average g then "Ave" else "Max" in
     let prefix :=
       match check_rates g r with STATE_OK => "Traffic ok - " | _ => "" end in
     exists value_in value_out,
       printed (evaluate g r now)
       = Some (prefix ++ label ++ ". In = " ++ value_in ++ " "
               ++ speed_rating (incoming_rate g r) ++ ", " ++ label ++ ". Out = "
               ++ value_out ++ " " ++ speed_rating (outgoing_rate g r) ++ nl)
       /\ value_in = fmt_f1 (adjusted_rate (incoming_rate g r))
       /\ value_out = fmt_f1 (adjusted_rate (outgoing_rate g r)))
  /\ main 1024 (only_log two_line_log)
       ["check_mrtgtraf"; "-F"; "log"; "-e"; "0"; "-a"; "AVG"; "-w"; "0,0"; "-c"; "0,0"] 110
     = Exit STATE_UNKNOWN (Text ("Unable to process MRTG log file" ++ nl ++ print_usage))
  /\ parse_line ("100 500 600 700 800" ++ nl) = Some sample_record
  /\ evaluate sample_config sample_record 110
     = Exit STATE_CRITICAL (Text ("Ave. In = 500.0 B/s, Ave. Out = 600.0 B/s" ++ nl)).
Proof.
  split; [exact traffic_message_template|].
  vm_compute. repeat split; reflexivity.
Qed.

(** ** The argument resolver *)

Lemma handle_option_exits (r : Getopt.ret) (g : config) (o : outcome) :
  handle_option r g = inr o -> option_exit o.
Proof.
  destruct r as [c | c optarg];
    destruct c as [[] [] [] [] [] [] [] []]; simpl;
    try discriminate;
    try (destruct (String.eqb optarg "MAX"); discriminate);
    try (destruct (C.sscanf_lu_lu optarg); discriminate);
    intros H; injection H as <-; constructor.
Qed.

Lemma handle_options_exits (rs : list Getopt.ret) :
  forall (g : config) (o : outcome),
    handle_options rs g = inr o -> option_exit o.
Proof.
  induction rs as [|r rs IH]; intros g o; simpl; [discriminate|].
  destruct (handle_option r g) as [g'|o'] eqn:E.
  - apply IH.
  - intros H. injection H as <-. exact (handle_option_exits r g o' E).
Qed.

Lemma handle_option_use_average (r : Getopt.ret) (g g' : config) :
  handle_option r g = inl g' ->
  use_average g' = flag_average (aggregation_arg r) (use_average g).
Proof.
  destruct r as [c | c optarg];
    destruct c as [[] [] [] [] [] [] [] []]; simpl;
    try discriminate;
    try destruct (String.eqb optarg "MAX");
    try destruct (C.sscanf_lu_lu optarg) as [[i|] [o|]];
    intros H; injection H as <-; reflexivity.
Qed.

(** After the options, the mode is what the last [-a] says. *)
Lemma handle_options_use_average (rs : list Getopt.ret) :
  forall g g' : config,
    handle_options rs g = inl g' ->
    use_average g' = flag_average (aggregation_flag rs) (use_average g).
Proof.
  induction rs as [|r rs IH]; intros g g'; simpl.
  - intros H. injection H as <-. reflexivity.
  - destruct (handle_option r g) as [g1|o] eqn:E; [|discriminate].
    intros H. rewrite (IH g1 g' H).
    destruct (aggregation_flag rs); [reflexivity|]. simpl.
    exact (handle_option_use_average r g g1 E).
Qed.

(** *** The positional arguments *)

Lemma keeps_refl (g : config) : keeps g g.
Proof. unfold keeps. tauto. Qed.

Lemma keeps_trans (a b c : config) : keeps a b -> keeps b c -> keeps a c.
Proof.
  unfold keeps. intros (A1 & A2 & A3 & A4 & A5 & A6) (B1 & B2 & B3 & B4 & B5 & B6).
  repeat split; intros H.
  - rewrite <- (A1 H). apply B1. rewrite (A1 H). exact H.
  - rewrite <- (A2 H). apply B2. rewrite (A2 H). exact H.
  - rewrite <- (A3 H). apply B3. rewrite (A3 H). exact H.
  - rewrite <- (A4 H). apply B4. rewrite (A4 H). exact H.
  - rewrite <- (A5 H). apply B5. rewrite (A5 H). exact H.
  - rewrite <- (A6 H). apply B6. rewrite (A6 H). exact H.
Qed.

(** Each step is skipped, argument and all, when its value is no longer the
    default. *)
Lemma positional_log_file_guard (g : config) (rest : list string) :
  log_file g <> None -> positional_log_file (g, rest) = (g, rest).
Proof.
  intros H. unfold positional_log_file.
  destruct rest; [reflexivity|]. destruct (log_file g); [reflexivity | congruence].
Qed.

Lemma positional_expire_guard (g : config) (rest : list string) :
  expire_minutes g <> (-1)%Z -> positional_expire (g, rest) = (g, rest).
Proof.
  intros H. unfold positional_expire.
  destruct rest; [reflexivity|].
  destruct (Z.eqb_spec (expire_minutes g) (-1)); [congruence | reflexivity].
Qed.

Lemma positional_threshold_guard
    (get : config -> N) (set : N -> config -> config)
    (g : config) (rest : list string) :
  get g <> 0%N -> positional_threshold get set (g, rest) = (g, rest).
Proof.
  intros H. unfold positional_threshold.
  destruct rest; [reflexivity|].
  destruct (N.eqb_spec (get g) 0); [congruence | reflexivity].
Qed.

Lemma positional_log_file_keeps (st : config * list string) :
  keeps (fst st) (fst (positional_log_file st)).
Proof.
  destruct st as [g [|a rest]]; simpl; [apply keeps_refl|].
  destruct (log_file g) eqn:E; simpl; [apply keeps_refl|].
  unfold keeps; simpl. rewrite E. repeat split; congruence.
Qed.

Lemma positional_expire_keeps (st : config * list string) :
  keeps (fst st) (fst (positional_expire st)).
Proof.
  destruct st as [g [|a rest]]; simpl; [apply keeps_refl|].
  destruct (Z.eqb_spec (expire_minutes g) (-1)); simpl; [|apply keeps_refl].
  unfold keeps; simpl. repeat split; congruence.
Qed.

Lemma positional_aggregation_keeps (st : config * list string) :
  keeps (fst st) (fst (positional_aggregation st)).
Proof.
  destruct st as [g [|a rest]]; simpl; [apply keeps_refl|].
  destruct (String.eqb a "MAX"); [|destruct (String.eqb a "AVG")]; simpl;
    unfold keeps; simpl; tauto.
Qed.

Lemma positional_incoming_warning_keeps (st : config * list string) :
  keeps (fst st)
    (fst (positional_threshold incoming_warning_threshold set_incoming_warning st)).
Proof.
  destruct st as [g [|a rest]]; simpl; [apply keeps_refl|].
  destruct (N.eqb_spec (incoming_warning_threshold g) 0); simpl; [|apply keeps_refl].
  unfold keeps; simpl. repeat split; congruence.
Qed.

Lemma positional_incoming_critical_keeps (st : config * list string) :
  keeps (fst st)
    (fst (positional_threshold incoming_critical_threshold set_incoming_critical st)).
Proof.
  destruct st as [g [|a rest]]; simpl; [apply keeps_refl|].
  destruct (N.eqb_spec (incoming_critical_threshold g) 0); simpl; [|apply keeps_refl].
  unfold keeps; simpl. repeat split; congruence.
Qed.

Lemma positional_outgoing_warning_keeps (st : config * list string) :
  keeps (fst st)
    (fst (positional_threshold outgoing_warning_threshold set_outgoing_warning st)).
Proof.
  destruct st as [g [|a rest]]; simpl; [apply keeps_refl|].
  destruct (N.eqb_spec (outgoing_warning_threshold g) 0); simpl; [|apply keeps_refl].
  unfold keeps; simpl. repeat split; congruence.
Qed.

Lemma positional_outgoing_critical_keeps (st : config * list string) :
  keeps (fst st)
    (fst (positional_threshold outgoing_critical_threshold set_outgoing_critical st)).
Proof.
  destruct st as [g [|a rest]]; simpl; [apply keeps_refl|].
  destruct (N.eqb_spec (outgoing_critical_threshold g) 0); simpl; [|apply keeps_refl].
  unfold keeps; simpl. repeat split; congruence.
Qed.

(** No value that the options moved away from its default is touched by the
    positional arguments. *)
Lemma positional_keeps (g : config) (rest : list string) :
  keeps g (positional g rest).
Proof.
  unfold positional.
  eapply keeps_trans; [|apply positional_outgoing_critical_keeps].
  eapply keeps_trans; [|apply positional_outgoing_warning_keeps].
  eapply keeps_trans; [|apply positional_incoming_critical_keeps].
  eapply keeps_trans; [|apply positional_incoming_warning_keeps].
  eapply keeps_trans; [|apply positional_aggregation_keeps].
  eapply keeps_trans; [|apply positional_expire_keeps].
  exact (positional_log_file_keeps (g, rest)).
Qed.

(** The mode is only changed by the step that compares with [MAX] and
    [AVG]. *)
Lemma positional_log_file_use_average (st : config * list string) :
  use_average (fst (positional_log_file st)) = use_average (fst st).
Proof.
  destruct st as [g [|a rest]]; simpl; [reflexivity|].
  destruct (log_file g); reflexivity.
Qed.

Lemma positional_expire_use_average (st : config * list string) :
  use_average (fst (positional_expire st)) = use_average (fst st).
Proof.
  destruct st as [g [|a rest]]; simpl; [reflexivity|].
  destruct (expire_minutes g =? -1)%Z; reflexivity.
Qed.

Lemma positional_aggregation_use_average (st : config * list string) :
  use_average (fst (positional_aggregation st))
  = slot_average (hd_error (snd st)) (use_average (fst st)).
Proof.
  destruct st as [g [|a rest]]; simpl; [reflexivity|].
  destruct (String.eqb a "MAX"); [reflexivity|].
  destruct (String.eqb a "AVG"); reflexivity.
Qed.

Lemma positional_threshold_use_average
    (get : config -> N) (set : N -> config -> config) (st : config * list string) :
  (forall v g, use_average (set v g) = use_average g) ->
  use_average (fst (positional_threshold get set st)) = use_average (fst st).
Proof.
  intros Hset. destruct st as [g [|a rest]]; simpl; [reflexivity|].
  destruct (get g =? 0)%N; simpl; [apply Hset | reflexivity].
Qed.

Lemma positional_use_average (g : config) (rest : list string) :
  use_average (positional g rest)
  = slot_average (aggregation_slot g rest) (use_average g).
Proof.
  unfold positional, aggregation_slot.
  rewrite !positional_threshold_use_average by reflexivity.
  rewrite positional_aggregation_use_average.
  rewrite positional_expire_use_average, positional_log_file_use_average.
  reflexivity.
Qed.

(** What [process_arguments] returns when it returns: never [ERROR] once
    there is an argument, and then the options followed by the positional
    arguments. *)
Lemma process_arguments_returns (argv : list string) (rc : retcode) (g : config) :
  process_arguments argv = inl (rc, g) ->
  ((List.length argv < 2)%nat /\ rc = ERROR /\ g = defaults)
  \/ ((2 <= List.length argv)%nat /\ rc = OK
      /\ exists g1,
           handle_options (fst (Getopt.getopt_long (respell_argv argv))) defaults
           = inl g1
           /\ g = positional g1 (snd (Getopt.getopt_long (respell_argv argv)))).
Proof.
  unfold process_arguments, resolve.
  destruct (Nat.ltb_spec (List.length argv) 2) as [Hlt | Hge].
  - intros H. injection H as <- <-. left. repeat split. exact Hlt.
  - destruct (Getopt.getopt_long (respell_argv argv)) as [rs rest]. simpl.
    destruct (handle_options rs defaults) as [g1|o]; [|discriminate].
    intros H. injection H as <- <-. right.
    split; [exact Hge|]. split; [reflexivity|]. exists g1. split; reflexivity.
Qed.

(** *** Numbers that do not parse *)




(** ** The claims on the argument resolver *)

(** C5, as stated, fails: the legacy command line of the header comment has
    no [-a] option and selects the maximum mode through its third positional
    argument, and a positional [AVG] undoes an option [-a MAX]. *)
Lemma C5_counterexample :
  aggregation_flag (fst (Getopt.getopt_long (respell_argv legacy_argv))) = None
  /\ (exists g, process_arguments legacy_argv = inl (OK, g) /\ use_average g = false)
  /\ aggregation_flag (fst (Getopt.getopt_long (respell_argv flag_then_slot_argv)))
     = Some "MAX"
  /\ (exists g, process_arguments flag_then_slot_argv = inl (OK, g)
                /\ use_average g = true).
Proof.
  split; [reflexivity|]. split; [eexists; split; reflexivity|].
  split; [reflexivity|]. eexists; split; reflexivity.
Qed.

(** C5, amended.  The last [-a] option selects the maximum mode when its
    argument is "MAX" and the average mode otherwise, and without the option
    the mode is the average one, unless the legacy positional argument in
    the place of the mode is "MAX" or "AVG", which then decides.  In the
    average mode the rates evaluated are the two averages of the record, in
    the maximum mode its two maxima, so one record can get two different
    statuses. *)
Theorem C5_aggregation_mode (argv : list string) (g : config) :
  process_arguments argv = inl (OK, g) ->
  (exists g1,
     handle_options (fst (Getopt.getopt_long (respell_argv argv))) defaults = inl g1
     /\ use_average g
        = slot_average
            (aggregation_slot g1 (snd (Getopt.getopt_long (respell_argv argv))))
            (flag_average
               (aggregation_flag (fst (Getopt.getopt_long (respell_argv argv))))
               true))
  /\ (forall r,
        (use_average g = true ->
         incoming_rate g r = average_incoming_rate r
         /\ outgoing_rate g r = average_outgoing_rate r)
        /\ (use_average g = false ->
            incoming_rate g r = maximum_incoming_rate r
            /\ outgoing_rate g r = maximum_outgoing_rate r))
  /\ (status (evaluate (set_use_average true sample_config) quiet_record 110)
      = Some STATE_OK
      /\ status (evaluate (set_use_average false sample_config) quiet_record 110)
         = Some STATE_CRITICAL).
Proof.
  intros H.
  destruct (process_arguments_returns argv OK g H)
    as [(_ & E & _) | (_ & _ & g1 & H1 & ->)]; [discriminate E|].
  split; [|split].
  - exists g1. split; [exact H1|].
    rewrite positional_use_average.
    rewrite (handle_options_use_average _ _ _ H1). reflexivity.
  - intros r. unfold incoming_rate, outgoing_rate.
    split; intros ->; split; reflexivity.
  - split; reflexivity.
Qed.

Lemma C5_aggregation_mode_witness :
  (exists g1,
     handle_options (fst (Getopt.getopt_long (respell_argv legacy_argv))) defaults
     = inl g1
     /\ false
        = slot_average
            (aggregation_slot g1 (snd (Getopt.getopt_long (respell_argv legacy_argv))))
            (flag_average
               (aggregation_flag (fst (Getopt.getopt_long (respell_argv legacy_argv))))
               true)).
Proof.
  exact (proj1 (C5_aggregation_mode legacy_argv
                  (mk_config (Some "log") 10 false 1 2 3 4) eq_refl)).
Defined.









(** C9.  A positional argument is taken for the log file, the expiry or a
    threshold only while that value is at its default (no log file,
    [expire_minutes] equal to -1, threshold equal to 0); otherwise the step
    is skipped and the argument is left for the next one.  So whatever value
    the options moved away from its default is the value at the end: a
    nonzero threshold of [-w] or [-c] is never overwritten, while one that an
    option set to 0 is. *)
Theorem C9_positional_fallback (argv : list string) (g : config) :
  process_arguments argv = inl (OK, g) ->
  (exists g1,
     handle_options (fst (Getopt.getopt_long (respell_argv argv))) defaults = inl g1
     /\ keeps g1 g)
  /\ (forall g0 rest,
        (log_file g0 <> None -> positional_log_file (g0, rest) = (g0, rest))
        /\ (expire_minutes g0 <> (-1)%Z -> positional_expire (g0, rest) = (g0, rest))
        /\ (forall get set, get g0 <> 0%N ->
              positional_threshold get set (g0, rest) = (g0, rest)))
  /\ (process_arguments nonzero_flag_argv
      = inl (OK, mk_config (Some "log") 5 true 3 7 0 0)
      /\ process_arguments zero_flag_argv
         = inl (OK, mk_config (Some "log") 5 true 7 9 0 9)).
Proof.
  intros H.
  destruct (process_arguments_returns argv OK g H)
    as [(_ & E & _) | (_ & _ & g1 & H1 & ->)]; [discriminate E|].
  split; [|split].
  - exists g1. split; [exact H1 | apply positional_keeps].
  - intros g0 rest. split; [|split].
    + apply positional_log_file_guard.
    + apply positional_expire_guard.
    + intros get set. apply positional_threshold_guard.
  - split; reflexivity.
Qed.

Lemma C9_positional_fallback_witness :
  exists g1,
    handle_options (fst (Getopt.getopt_long (respell_argv nonzero_flag_argv))) defaults
    = inl g1
    /\ keeps g1 (mk_config (Some "log") 5 true 3 7 0 0).
Proof.
  exact (proj1 (C9_positional_fallback nonzero_flag_argv
                  (mk_config (Some "log") 5 true 3 7 0 0) eq_refl)).
Defined.

(** ** The claims on the log reader *)

(** C6, as stated, fails: the second line of this log has five fields, none
    of them numeric, and the run ends with a full evaluation and the status
    OK, every field read as 0. *)
Lemma C6_counterexample :
  tokens 6 ("abc def ghi jkl mno" ++ nl) = ["abc"; "def"; "ghi"; "jkl"; "mno" ++ nl]
  /\ forallb numeric ["abc"; "def"; "ghi"; "jkl"; "mno"] = false
  /\ main 1024 (only_log wordy_log) ["check_mrtgtraf"; "-F"; "log"] 110
     = Exit STATE_OK (Text ("Traffic ok - Ave. In = 0.0 B/s, Ave. Out = 0.0 B/s" ++ nl)).
Proof.
  split; [reflexivity|]. split; [reflexivity|]. vm_compute. reflexivity.
Qed.

(** C6, amended.  For every log from which three lines are read, the record
    is evaluated whenever the second line has five blank-separated tokens,
    numeric or not: every field is what [strtoul] reads from its token,
    which is 0 for a token that does not start with a number.  (What happens
    with fewer than five tokens is left open here.) *)
Theorem C6_five_tokens_evaluated
    (MAX_INPUT_BUFFER : nat) (fopen : string -> option string)
    (g : config) (now : Z)
    (path content l1 fp1 l2 fp2 l3 fp3 t1 t2 t3 t4 t5 : string) :
  log_file g = Some path -> fopen path = Some content ->
  C.fgets (MAX_INPUT_BUFFER - 1) content = Some (l1, fp1) ->
  C.fgets (MAX_INPUT_BUFFER - 1) fp1 = Some (l2, fp2) ->
  C.fgets (MAX_INPUT_BUFFER - 1) fp2 = Some (l3, fp3) ->
  tokens 5 (c_str l2) = [t1; t2; t3; t4; t5] ->
  run MAX_INPUT_BUFFER fopen g now
  = evaluate g
      (mk_record (C.to_long (Z.of_N (C.strtoul t1)))
         (C.strtoul t2) (C.strtoul t3) (C.strtoul t4) (C.strtoul t5)) now
  /\ (forall t, In t [t1; t2; t3; t4; t5] -> no_number t = true -> C.strtoul t = 0%N).
Proof.
  intros Hg Hf H1 H2 H3 Ht. split.
  - exact (run_three_lines MAX_INPUT_BUFFER fopen g now path content
             l1 fp1 l2 fp2 l3 fp3 _ Hg Hf H1 H2
             (parse_line_tokens l2 t1 t2 t3 t4 t5 Ht) H3).
  - intros t _. apply strtoul_no_number.
Qed.

Lemma C6_five_tokens_evaluated_witness :
  run 1024 (only_log wordy_log) (set_log_file (Some "log") defaults) 110
  = evaluate (set_log_file (Some "log") defaults)
      (mk_record (C.to_long (Z.of_N (C.strtoul "abc")))
         (C.strtoul "def") (C.strtoul "ghi") (C.strtoul "jkl")
         (C.strtoul ("mno" ++ nl))) 110.
Proof.
  exact (proj1 (C6_five_tokens_evaluated 1024 (only_log wordy_log)
                  (set_log_file (Some "log") defaults) 110
                  "log" wordy_log
                  ("header" ++ nl)
                  ("abc def ghi jkl mno" ++ nl ++ "40 510 610 710 810" ++ nl)
                  ("abc def ghi jkl mno" ++ nl)
                  ("40 510 610 710 810" ++ nl)
                  ("40 510 610 710 810" ++ nl) ""
                  "abc" "def" "ghi" "jkl" ("mno" ++ nl)
                  eq_refl eq_refl eq_refl eq_refl eq_refl eq_refl)).
Defined.

(** * Further properties of the evaluator *)

(** X3.  More traffic or lower thresholds never give a milder status: the
    exit code of the threshold tests is monotone in the two rates and
    antitone in the four thresholds. *)
Theorem check_rates_monotone (g g' : config) (r r' : log_record) :
  (incoming_rate g r <= incoming_rate g' r')%N ->
  (outgoing_rate g r <= outgoing_rate g' r')%N ->
  (incoming_warning_threshold g' <= incoming_warning_threshold g)%N ->
  (incoming_critical_threshold g' <= incoming_critical_threshold g)%N ->
  (outgoing_warning_threshold g' <= outgoing_warning_threshold g)%N ->
  (outgoing_critical_threshold g' <= outgoing_critical_threshold g)%N ->
  (exit_code (check_rates g r) <= exit_code (check_rates g' r'))%Z.
Proof.
  intros Hi Ho Hiw Hic How Hoc. unfold check_rates.
  destruct (N.ltb_spec (incoming_critical_threshold g) (incoming_rate g r));
  destruct (N.ltb_spec (outgoing_critical_threshold g) (outgoing_rate g r));
  destruct (N.ltb_spec (incoming_warning_threshold g) (incoming_rate g r));
  destruct (N.ltb_spec (outgoing_warning_threshold g) (outgoing_rate g r));
  destruct (N.ltb_spec (incoming_critical_threshold g') (incoming_rate g' r'));
  destruct (N.ltb_spec (outgoing_critical_threshold g') (outgoing_rate g' r'));
  destruct (N.ltb_spec (incoming_warning_threshold g') (incoming_rate g' r'));
  destruct (N.ltb_spec (outgoing_warning_threshold g') (outgoing_rate g' r'));
  simpl; lia.
Qed.

Lemma check_rates_monotone_witness :
  (exit_code (check_rates sample_thresholds quiet_record)
   <= exit_code (check_rates sample_config sample_record))%Z.
Proof.
  apply check_rates_monotone; vm_compute; intros H; discriminate H.
Defined.

(** X4.  When neither critical threshold is above its warning threshold, an
    evaluation of data that has not expired never ends with WARNING: it is
    OK or CRITICAL. *)
Theorem no_warning_below_critical (g : config) (r : log_record) (now : Z) :
  (incoming_critical_threshold g <= incoming_warning_threshold g)%N ->
  (outgoing_critical_threshold g <= outgoing_warning_threshold g)%N ->
  expired g r now = false ->
  status (evaluate g r now) = Some STATE_OK
  \/ status (evaluate g r now) = Some STATE_CRITICAL.
Proof.
  intros Hi Ho Hx. rewrite (evaluate_fresh g r now Hx). simpl.
  destruct (check_rates g r) eqn:E; [left; reflexivity | | right; reflexivity |].
  - apply check_rates_warning in E. lia.
  - elim (check_rates_never_unknown g r E).
Qed.

Lemma no_warning_below_critical_witness :
  status (evaluate (mk_config (Some "log") 0 true 900 300 900 300)
            sample_record 110) = Some STATE_OK
  \/ status (evaluate (mk_config (Some "log") 0 true 900 300 900 300)
               sample_record 110) = Some STATE_CRITICAL.
Proof.
  apply no_warning_below_critical;
    first [reflexivity | vm_compute; intros H; discriminate H].
Defined.

(** X5.  For an expiry whose seconds fit an [int] (at most 35791394
    minutes), the data counts as expired exactly when its age is strictly
    above [expire_minutes * 60] seconds; data of exactly that age is still
    evaluated by its rates. *)
Theorem expired_exactly (g : config) (r : log_record) (now : Z) :
  (0 < expire_minutes g)%Z ->
  (expire_minutes g * 60 <= C.INT_MAX)%Z ->
  (expired g r now = true <-> (expire_minutes g * 60 < age now r)%Z)
  /\ (age now r = (expire_minutes g * 60)%Z ->
      status (evaluate g r now) = Some (check_rates g r)).
Proof.
  intros Hpos Hfit.
  assert (Hint : C.to_int (expire_minutes g * 60) = (expire_minutes g * 60)%Z).
  { apply to_int_small. unfold C.INT_MIN. lia. }
  split.
  - rewrite expired_iff, Hint. tauto.
  - intros Hage.
    assert (Hx : expired g r now = false).
    { destruct (expired g r now) eqn:E; [|reflexivity].
      apply expired_iff in E. rewrite Hint in E. lia. }
    rewrite (evaluate_fresh g r now Hx). reflexivity.
Qed.

Lemma expired_exactly_witness :
  (expired stale_config sample_record 400 = true <-> (5 * 60 < age 400 sample_record)%Z)
  /\ (age 400 sample_record = (5 * 60)%Z ->
      status (evaluate stale_config sample_record 400)
      = Some (check_rates stale_config sample_record)).
Proof.
  exact (expired_exactly stale_config sample_record 400
           ltac:(reflexivity) ltac:(vm_compute; discriminate)).
Defined.

(** *** The numbers on display *)

Lemma adjusted_rate_nonneg (rate : N) : (0 <= Qnum (adjusted_rate rate))%Z.
Proof.
  unfold adjusted_rate.
  destruct (rate <? 1024)%N; [simpl; lia|].
  destruct (rate <? 1024 * 1024)%N; simpl; lia.
Qed.

(** What [%0.1f] prints is within half a tenth of the number printed. *)
Lemma shown_accuracy (q : Q) :
  (0 <= Qnum q)%Z -> q - (1 # 20) <= shown q /\ shown q <= q + (1 # 20).
Proof.
  intros Hq. unfold shown, tenths.
  destruct (round_half_even_error (Z.to_N (Qnum q) * 10) (N.pos (Qden q))
              ltac:(lia)) as [H1 H2].
  remember (round_half_even (Z.to_N (Qnum q) * 10) (N.pos (Qden q))) as t.
  clear Heqt. destruct q as [a b]. simpl Qnum in *. simpl Qden in *.
  unfold Qle, Qminus, Qplus, Qopp, Qdiv, Qmult, Qinv, inject_Z. simpl.
  rewrite !Pos2Z.inj_mul. split; lia.
Qed.

(** * Further properties of the argument resolver *)

(** An option without argument that stands alone in its element of [argv]
    is what the scanner returns first. *)
Lemma scan_first (a : string) (r : Getopt.ret) :
  Getopt.scan [a] = ([r], []) ->
  (forall b l, Getopt.scan (a :: b :: l)
               = let '(rs, nonopts) := Getopt.scan (b :: l) in (r :: rs, nonopts)) ->
  forall l, exists rs nonopts, Getopt.scan (a :: l) = (r :: rs, nonopts).
Proof.
  intros H1 H2 [|b l].
  - exists [], []. exact H1.
  - rewrite H2. destruct (Getopt.scan (b :: l)) as [rs nonopts].
    exists rs, nonopts. reflexivity.
Qed.

(** When the first return of the scanner makes the [switch] leave, that is
    how the run ends. *)
Lemma main_first_option
    (MAX_INPUT_BUFFER : nat) (fopen : string -> option string)
    (a0 a : string) (rest : list string) (now : Z)
    (r : Getopt.ret) (o : outcome) :
  (forall l, exists rs nonopts,
     Getopt.scan (respell a :: l) = (r :: rs, nonopts)) ->
  handle_option r defaults = inr o ->
  main MAX_INPUT_BUFFER fopen (a0 :: a :: rest) now = o.
Proof.
  intros Hscan Ho.
  unfold main, process_arguments, resolve, Getopt.getopt_long, respell_argv.
  cbn [List.length Nat.ltb Nat.leb map tl].
  destruct (Hscan (map respell rest)) as [rs [nonopts ->]].
  cbn [handle_options]. rewrite Ho. reflexivity.
Qed.

(** X7.  Help and version come first: when the first argument is [-h] or
    [--help] (or [-V], [--version]), the run prints the help (version)
    screen and exits OK whatever follows on the command line, without
    opening a file. *)
Theorem help_and_version_first
    (MAX_INPUT_BUFFER : nat) (fopen : string -> option string)
    (a0 : string) (rest : list string) (now : Z) :
  main MAX_INPUT_BUFFER fopen (a0 :: "-h" :: rest) now = Exit STATE_OK Help
  /\ main MAX_INPUT_BUFFER fopen (a0 :: "--help" :: rest) now = Exit STATE_OK Help
  /\ main MAX_INPUT_BUFFER fopen (a0 :: "-V" :: rest) now = Exit STATE_OK Revision
  /\ main MAX_INPUT_BUFFER fopen (a0 :: "--version" :: rest) now
     = Exit STATE_OK Revision.
Proof.
  split; [|split; [|split]].
  - apply main_first_option with (r := Getopt.Flag "h");
      [apply scan_first; [reflexivity | intros b l; reflexivity] | reflexivity].
  - apply main_first_option with (r := Getopt.Flag "h");
      [apply scan_first; [reflexivity | intros b l; reflexivity] | reflexivity].
  - apply main_first_option with (r := Getopt.Flag "V");
      [apply scan_first; [reflexivity | intros b l; reflexivity] | reflexivity].
  - apply main_first_option with (r := Getopt.Flag "V");
      [apply scan_first; [reflexivity | intros b l; reflexivity] | reflexivity].
Qed.

(** X8.  The usage text offers [-t timeout] and [-v], and the first loop of
    [process_arguments] turns [-to] into [-t]; the option string has neither
    letter, so a command line that starts with [-t], [-to] or [-v] ends with
    the usage error "Invalid argument", whatever follows. *)
Theorem advertised_options_rejected
    (MAX_INPUT_BUFFER : nat) (fopen : string -> option string)
    (a0 : string) (rest : list string) (now : Z) :
  (forall a, In a ["-t"; "-to"; "-v"] ->
     main MAX_INPUT_BUFFER fopen (a0 :: a :: rest) now
     = Exit STATE_UNKNOWN (Text ("Invalid argument" ++ nl ++ print_usage)))
  /\ index 0 "[-t timeout] [-v]" print_usage <> None.
Proof.
  split; [|vm_compute; discriminate].
  intros a Ha. simpl in Ha. destruct Ha as [<- | [<- | [<- | []]]];
    (apply main_first_option with (r := Getopt.Flag "?");
     [apply scan_first; [reflexivity | intros b l; reflexivity] | reflexivity]).
Qed.

(** X9.  The old spellings [-wt] and [-ct] are read as [-w] and [-c]
    wherever they stand on the command line. *)
Theorem old_spellings_accepted (a0 : string) (before after : list string) :
  process_arguments (a0 :: before ++ "-wt" :: after)
  = process_arguments (a0 :: before ++ "-w" :: after)
  /\ process_arguments (a0 :: before ++ "-ct" :: after)
     = process_arguments (a0 :: before ++ "-c" :: after).
Proof.
  unfold process_arguments, resolve, respell_argv.
  split; simpl List.length; rewrite !length_app; simpl List.length;
    rewrite !map_app; reflexivity.
Qed.

(** *** The legacy positional form *)

Lemma respell_nonoption (a : string) : nonoption a = true -> respell a = a.
Proof.
  destruct a as [|c [|c2 a]]; try reflexivity;
    destruct c as [[] [] [] [] [] [] [] []]; try reflexivity; discriminate.
Qed.

Lemma scan_nonoption (a : string) (rest : list string) :
  nonoption a = true ->
  Getopt.scan (a :: rest)
  = let '(rs, nonopts) := Getopt.scan rest in (rs, a :: nonopts).
Proof.
  destruct a as [|c [|c2 a]]; try reflexivity;
    destruct c as [[] [] [] [] [] [] [] []]; try reflexivity; discriminate.
Qed.

(** Arguments without a dash are all left for the positional steps. *)
Lemma scan_nonoptions (args : list string) :
  forallb nonoption args = true -> Getopt.scan args = ([], args).
Proof.
  induction args as [|a args IH]; [reflexivity|].
  cbn [forallb]. rewrite andb_true_iff. intros [Ha Hargs].
  rewrite (scan_nonoption a args Ha), (IH Hargs). reflexivity.
Qed.

Lemma respell_nonoptions (args : list string) :
  forallb nonoption args = true -> map respell args = args.
Proof.
  induction args as [|a args IH]; [reflexivity|].
  cbn [forallb map]. rewrite andb_true_iff. intros [Ha Hargs].
  rewrite (respell_nonoption a Ha), (IH Hargs). reflexivity.
Qed.

(** Without options, [process_arguments] is the positional steps on the
    initial globals. *)
Lemma process_arguments_positional (a0 a : string) (args : list string) :
  forallb nonoption (a :: args) = true ->
  process_arguments (a0 :: a :: args) = inl (OK, positional defaults (a :: args)).
Proof.
  intros H. unfold process_arguments, resolve, Getopt.getopt_long, respell_argv.
  cbn [List.length Nat.ltb Nat.leb tl].
  rewrite (respell_nonoptions (a :: args) H), (scan_nonoptions (a :: args) H).
  reflexivity.
Qed.

(** X10.  The legacy command line
    [<log_file> <expire_minutes> <AVG|MAX> <iwl> <icl> <owl> <ocl>], none of
    the seven starting with a dash, sets the seven globals in that order:
    the numbers are what [atoi] and [strtoul] read.  The mode may be left
    out: when the third argument is neither [MAX] nor [AVG], the mode stays
    the average one and that argument is already the first threshold. *)
Theorem legacy_command_line (a0 f e m w1 c1 w2 c2 : string) :
  forallb nonoption [f; e; m; w1; c1; w2; c2] = true ->
  (m = "MAX" \/ m = "AVG" ->
   process_arguments [a0; f; e; m; w1; c1; w2; c2]
   = inl (OK, mk_config (Some f) (C.atoi e) (negb (String.eqb m "MAX"))
                (C.strtoul w1) (C.strtoul c1) (C.strtoul w2) (C.strtoul c2)))
  /\ (m <> "MAX" -> m <> "AVG" ->
      process_arguments [a0; f; e; m; w1; c1; w2]
      = inl (OK, mk_config (Some f) (C.atoi e) true
                   (C.strtoul m) (C.strtoul w1) (C.strtoul c1) (C.strtoul w2))).
Proof.
  intros H. split.
  - intros Hm. rewrite (process_arguments_positional a0 f _ H).
    destruct Hm as [-> | ->]; reflexivity.
  - intros Hmax Havg.
    assert (H' : forallb nonoption [f; e; m; w1; c1; w2] = true).
    { cbn [forallb] in *. rewrite !andb_true_iff in *. tauto. }
    rewrite (process_arguments_positional a0 f _ H').
    unfold positional. cbn [positional_log_file positional_expire log_file defaults].
    cbn [expire_minutes set_log_file defaults Z.eqb Pos.eqb].
    unfold positional_aggregation.
    apply String.eqb_neq in Hmax, Havg. rewrite Hmax, Havg. reflexivity.
Qed.

Lemma legacy_command_line_witness :
  process_arguments legacy_argv
  = inl (OK, mk_config (Some "log") (C.atoi "10") (negb (String.eqb "MAX" "MAX"))
               (C.strtoul "1") (C.strtoul "2") (C.strtoul "3") (C.strtoul "4")).
Proof.
  exact (proj1 (legacy_command_line "check_mrtgtraf" "log" "10" "MAX" "1" "2" "3" "4"
                  eq_refl) (or_introl eq_refl)).
Defined.

(** * Decimal numerals are read back *)

Lemma append_nil (s : string) : s ++ "" = s.
Proof. induction s as [|c s IH]; simpl; [reflexivity | now rewrite IH]. Qed.

Lemma digits_stop (acc : N) (count : nat) (rest : string) :
  nondigit_start rest = true -> C.digits acc count rest = (acc, count, rest).
Proof.
  destruct rest as [|c rest]; [reflexivity|]. simpl.
  destruct (isdigit c); [discriminate | reflexivity].
Qed.

Lemma digits_uint_acc (d : Decimal.uint) (rest : string) :
  nondigit_start rest = true ->
  forall (p : positive) (count : nat),
    C.digits (N.pos p) count (NilEmpty.string_of_uint d ++ rest)
    = (N.pos (Pos.of_uint_acc d p), (count + Decimal.nb_digits d)%nat, rest).
Proof.
  intros Hrest. induction d as [|d IH|d IH|d IH|d IH|d IH|d IH|d IH|d IH|d IH|d IH];
    intros p count;
    [ cbn [NilEmpty.string_of_uint append Pos.of_uint_acc Decimal.nb_digits];
      rewrite Nat.add_0_r; apply digits_stop, Hrest
    | cbn [NilEmpty.string_of_uint append Pos.of_uint_acc Decimal.nb_digits C.digits];
      match goal with
      | |- context [isdigit ?c] => change (isdigit c) with true
      end;
      cbv iota;
      match goal with
      | |- C.digits ?acc _ _ = (N.pos (Pos.of_uint_acc _ ?q), _, _) =>
          replace acc with (N.pos q)
            by (match goal with
                | |- context [digit_value ?c] =>
                    let v := eval vm_compute in (digit_value c) in
                    change (digit_value c) with v
                end; lia)
      end;
      rewrite IH; rewrite Nat.add_succ_r; reflexivity .. ].
Qed.

Lemma digits_uint (d : Decimal.uint) (rest : string) :
  nondigit_start rest = true ->
  forall count : nat,
    C.digits 0 count (NilEmpty.string_of_uint d ++ rest)
    = (N.of_uint d, (count + Decimal.nb_digits d)%nat, rest).
Proof.
  intros Hrest. unfold N.of_uint.
  induction d as [|d IH|d IH|d IH|d IH|d IH|d IH|d IH|d IH|d IH|d IH];
    intros count;
    [ cbn [NilEmpty.string_of_uint append Pos.of_uint Decimal.nb_digits];
      rewrite Nat.add_0_r; apply digits_stop, Hrest
    | cbn [NilEmpty.string_of_uint append Pos.of_uint Decimal.nb_digits C.digits];
      change (isdigit "0") with true; cbv iota;
      change (10 * 0 + digit_value "0")%N with 0%N;
      rewrite IH; rewrite Nat.add_succ_r; reflexivity
    | cbn [NilEmpty.string_of_uint append Pos.of_uint Decimal.nb_digits C.digits];
      match goal with
      | |- context [isdigit ?c] => change (isdigit c) with true
      end;
      cbv iota;
      match goal with
      | |- C.digits ?acc _ _ = (N.pos (Pos.of_uint_acc _ ?q), _, _) =>
          change acc with (N.pos q)
      end;
      rewrite (digits_uint_acc d rest Hrest); rewrite Nat.add_succ_r;
      reflexivity .. ].
Qed.

Lemma to_uint_nonnil (n : N) : N.to_uint n <> Decimal.Nil.
Proof.
  destruct n as [|p]; [discriminate|]. apply DecimalPos.Unsigned.to_uint_nonnil.
Qed.

Lemma fmt_u_string (n : N) : fmt_u n = NilEmpty.string_of_uint (N.to_uint n).
Proof.
  unfold fmt_u, NilZero.string_of_uint.
  pose proof (to_uint_nonnil n) as H.
  destruct (N.to_uint n); [elim H|..]; reflexivity.
Qed.

(** A numeral has no sign and no white space in front, and does not look
    like an option. *)
Lemma numeral_start (n : N) (rest : string) :
  C.take_sign (C.skip_spaces (fmt_u n ++ rest)) = (false, fmt_u n ++ rest)
  /\ nonoption (fmt_u n ++ rest) = true
  /\ exists k, Decimal.nb_digits (N.to_uint n) = S k.
Proof.
  rewrite fmt_u_string. pose proof (to_uint_nonnil n) as H.
  destruct (N.to_uint n); [elim H; reflexivity|..];
    (split; [reflexivity | split; [reflexivity | eexists; reflexivity]]).
Qed.

(** [%lu] and [strtoul] read the numeral of [n] back as [n], or as
    [ULONG_MAX] when [n] is larger than that. *)
Lemma scan_lu_numeral (n : N) (rest : string) :
  nondigit_start rest = true ->
  C.scan_lu (fmt_u n ++ rest) = Some (N.min n C.ULONG_MAX, rest).
Proof.
  intros Hrest. unfold C.scan_lu.
  destruct (numeral_start n rest) as (-> & _ & k & Hk).
  rewrite fmt_u_string, (digits_uint _ rest Hrest), Hk.
  rewrite DecimalN.Unsigned.of_to. cbn [Nat.add]. unfold C.ulong_of.
  destruct (N.ltb_spec C.ULONG_MAX n); f_equal; f_equal; lia.
Qed.

Lemma strtoul_numeral (n : N) (rest : string) :
  nondigit_start rest = true ->
  C.strtoul (fmt_u n ++ rest) = N.min n C.ULONG_MAX.
Proof.
  intros Hrest. unfold C.strtoul.
  destruct (numeral_start n rest) as (-> & _ & _).
  rewrite fmt_u_string, (digits_uint _ rest Hrest).
  rewrite DecimalN.Unsigned.of_to. unfold C.ulong_of.
  destruct (N.ltb_spec C.ULONG_MAX n); lia.
Qed.

Lemma sscanf_pair_numerals (n m : N) :
  C.sscanf_lu_lu (fmt_u n ++ "," ++ fmt_u m)
  = (Some (N.min n C.ULONG_MAX), Some (N.min m C.ULONG_MAX)).
Proof.
  unfold C.sscanf_lu_lu.
  rewrite (scan_lu_numeral n ("," ++ fmt_u m) eq_refl).
  cbn [append]. rewrite <- (append_nil (fmt_u m)).
  rewrite (scan_lu_numeral m "" eq_refl). reflexivity.
Qed.

Lemma sscanf_single_numeral (n : N) :
  C.sscanf_lu_lu (fmt_u n) = (Some (N.min n C.ULONG_MAX), None).
Proof.
  unfold C.sscanf_lu_lu. rewrite <- (append_nil (fmt_u n)).
  rewrite (scan_lu_numeral n "" eq_refl). reflexivity.
Qed.

Lemma respell_other (a : string) :
  a <> "-to" -> a <> "-wt" -> a <> "-ct" -> respell a = a.
Proof.
  intros H1 H2 H3. unfold respell.
  assert (E1 : String.eqb "-to" a = false) by (apply String.eqb_neq; congruence).
  assert (E2 : String.eqb "-wt" a = false) by (apply String.eqb_neq; congruence).
  assert (E3 : String.eqb "-ct" a = false) by (apply String.eqb_neq; congruence).
  rewrite E1, E2, E3. reflexivity.
Qed.

(** X11.  The command line of the usage text,
    [-F <log_file> -a <AVG|MAX> -w <iwarn,owarn> -c <icrit,ocrit> -e <minutes>]
    with thresholds written as decimal numerals, sets the four thresholds to
    the numbers written (to [ULONG_MAX] for a larger one) and the log file,
    the mode and the expiry from the three other arguments, whatever these
    are, after the first loop has respelled them: an argument other than
    [-to], [-wt] and [-ct] is taken as it is, so a log file named [-wt] is
    opened as [-w].  A [-w] with a single number sets the incoming threshold
    only and leaves the outgoing one as it was. *)
Theorem option_command_line (a0 f m e : string) (iw ow ic oc n : N) :
  process_arguments
    [a0; "-F"; f; "-a"; m; "-w"; fmt_u iw ++ "," ++ fmt_u ow;
     "-c"; fmt_u ic ++ "," ++ fmt_u oc; "-e"; e]
  = inl (OK, mk_config (Some (respell f)) (C.atoi (respell e))
               (negb (String.eqb (respell m) "MAX"))
               (N.min iw C.ULONG_MAX) (N.min ic C.ULONG_MAX)
               (N.min ow C.ULONG_MAX) (N.min oc C.ULONG_MAX))
  /\ process_arguments
       [a0; "-F"; f; "-w"; fmt_u iw ++ "," ++ fmt_u ow; "-w"; fmt_u n]
     = inl (OK, mk_config (Some (respell f)) (-1) true
                  (N.min n C.ULONG_MAX) 0 (N.min ow C.ULONG_MAX) 0)
  /\ (forall a, a <> "-to" -> a <> "-wt" -> a <> "-ct" -> respell a = a)
  /\ respell "-to" = "-t" /\ respell "-wt" = "-w" /\ respell "-ct" = "-c".
Proof.
  pose proof (sscanf_pair_numerals iw ow) as Hw.
  pose proof (sscanf_pair_numerals ic oc) as Hc.
  pose proof (sscanf_single_numeral n) as Hn.
  assert (Hrw : respell (fmt_u iw ++ "," ++ fmt_u ow) = fmt_u iw ++ "," ++ fmt_u ow)
    by (apply respell_nonoption, numeral_start).
  assert (Hrc : respell (fmt_u ic ++ "," ++ fmt_u oc) = fmt_u ic ++ "," ++ fmt_u oc)
    by (apply respell_nonoption, numeral_start).
  assert (Hrn : respell (fmt_u n) = fmt_u n).
  { apply respell_nonoption. rewrite <- (append_nil (fmt_u n)). apply numeral_start. }
  remember (fmt_u iw ++ "," ++ fmt_u ow) as wpair.
  remember (fmt_u ic ++ "," ++ fmt_u oc) as cpair.
  remember (fmt_u n) as single.
  remember (respell f) as f'. remember (respell m) as m'. remember (respell e) as e'.
  split; [|split; [|split; [exact respell_other | repeat split]]];
    unfold process_arguments, resolve, Getopt.getopt_long, respell_argv;
    cbn [List.length Nat.ltb Nat.leb map tl];
    rewrite <- ?Heqf', <- ?Heqm', <- ?Heqe', ?Hrw, ?Hrc, ?Hrn.
  - change (Getopt.scan
              [respell "-F"; f'; respell "-a"; m'; respell "-w"; wpair;
               respell "-c"; cpair; respell "-e"; e'])
      with ([Getopt.WithArg "F" f'; Getopt.WithArg "a" m'; Getopt.WithArg "w" wpair;
             Getopt.WithArg "c" cpair; Getopt.WithArg "e" e'], @nil string).
    cbn [handle_options handle_option].
    destruct (String.eqb m' "MAX"); cbn [handle_options handle_option];
      rewrite Hw, Hc; reflexivity.
  - change (Getopt.scan [respell "-F"; f'; respell "-w"; wpair; respell "-w"; single])
      with ([Getopt.WithArg "F" f'; Getopt.WithArg "w" wpair;
             Getopt.WithArg "w" single], @nil string).
    cbn [handle_options handle_option]. rewrite Hw.
    cbn [handle_options handle_option assign]. rewrite Hn. reflexivity.
Qed.

Lemma option_command_line_witness :
  process_arguments
    ["check_mrtgtraf"; "-F"; "-wt"; "-a"; "MAX"; "-w"; fmt_u 10 ++ "," ++ fmt_u 20;
     "-c"; fmt_u 30 ++ "," ++ fmt_u 40; "-e"; "-5"]
  = inl (OK, mk_config (Some (respell "-wt")) (C.atoi (respell "-5"))
               (negb (String.eqb (respell "MAX") "MAX"))
               (N.min 10 C.ULONG_MAX) (N.min 30 C.ULONG_MAX)
               (N.min 20 C.ULONG_MAX) (N.min 40 C.ULONG_MAX)).
Proof.
  exact (proj1 (option_command_line "check_mrtgtraf" "-wt" "MAX" "-5"
                  10 20 30 40 0)).
Defined.

(** * A line of numerals is read as its numbers *)

Lemma digit_char (c : ascii) :
  isdigit c = true ->
  Ascii.eqb c zero = false /\ strchr " " c = false
  /\ Ascii.eqb c (ascii_of_nat 10) = false.
Proof.
  destruct c as [[] [] [] [] [] [] [] []]; intros H;
    try discriminate H; repeat split; reflexivity.
Qed.

Lemma fmt_u_digits (n : N) :
  all_digits (fmt_u n) = true /\ exists c s, fmt_u n = String c s.
Proof.
  pose proof (numeric_fmt_u n) as H. unfold numeric in H.
  destruct (fmt_u n) as [|c s]; [discriminate H|].
  split; [exact H | exists c, s; reflexivity].
Qed.

Lemma c_str_digits (s rest : string) :
  all_digits s = true -> c_str (s ++ rest) = s ++ c_str rest.
Proof.
  induction s as [|c s IH]; [reflexivity|]. cbn [all_digits append c_str].
  rewrite andb_true_iff. intros [Hc Hs].
  destruct (digit_char c Hc) as (-> & _ & _). now rewrite (IH Hs).
Qed.

Lemma c_str_blanks (k : nat) (rest : string) :
  c_str (blanks k ++ rest) = blanks k ++ c_str rest.
Proof. induction k as [|k IH]; [reflexivity|]. cbn. now rewrite IH. Qed.

Lemma skip_delims_blanks (k : nat) (s : string) :
  C.skip_delims " " (blanks k ++ s) = C.skip_delims " " s.
Proof. induction k as [|k IH]; [reflexivity|]. cbn. exact IH. Qed.

Lemma token_digits (s rest : string) :
  all_digits s = true ->
  C.token " " (s ++ rest)
  = (s ++ fst (C.token " " rest), snd (C.token " " rest)).
Proof.
  induction s as [|c s IH].
  - intros _. cbn [append]. destruct (C.token " " rest). reflexivity.
  - cbn [all_digits append C.token]. rewrite andb_true_iff. intros [Hc Hs].
    destruct (digit_char c Hc) as (_ & -> & _). rewrite (IH Hs). reflexivity.
Qed.

(** [strtok] on a numeral after blanks: the token runs on to the next
    blank. *)
Lemma strtok_numeral (k : nat) (n : N) (rest : string) :
  C.strtok " " (blanks k ++ fmt_u n ++ rest)
  = Some (fmt_u n ++ fst (C.token " " rest), snd (C.token " " rest)).
Proof.
  unfold C.strtok. rewrite skip_delims_blanks.
  destruct (fmt_u_digits n) as [Hd (c & s & E)].
  assert (Hskip : C.skip_delims " " (fmt_u n ++ rest) = fmt_u n ++ rest).
  { rewrite E in *. cbn [append C.skip_delims]. cbn [all_digits] in Hd.
    apply andb_true_iff in Hd. destruct Hd as [Hc _].
    destruct (digit_char c Hc) as (_ & -> & _). reflexivity. }
  rewrite Hskip, <- (token_digits (fmt_u n) rest Hd).
  rewrite E. reflexivity.
Qed.

Lemma next_field_numeral (k : nat) (n : N) (rest : string) :
  nondigit_start (fst (C.token " " rest)) = true ->
  next_field (blanks k ++ fmt_u n ++ rest)
  = Some (N.min n C.ULONG_MAX, snd (C.token " " rest)).
Proof.
  intros H. unfold next_field. rewrite strtok_numeral.
  rewrite (strtoul_numeral n _ H). reflexivity.
Qed.

Lemma nondigit_token (tail : string) :
  nondigit_start tail = true ->
  nondigit_start (fst (C.token " " (c_str tail))) = true.
Proof.
  destruct tail as [|c tail]; [reflexivity|]. cbn [nondigit_start c_str].
  intros H. destruct (Ascii.eqb c zero); [reflexivity|].
  cbn [C.token]. destruct (strchr " " c); [reflexivity|].
  destruct (C.token " " (c_str tail)). exact H.
Qed.

(** The five fields of such a line, each cut to [ULONG_MAX]. *)
Lemma parse_line_numerals
    (k0 k1 k2 k3 k4 : nat) (ts ai ao mi mo : N) (tail : string) :
  nondigit_start tail = true ->
  parse_line
    (blanks k0 ++ fmt_u ts ++ blanks (S k1) ++ fmt_u ai ++ blanks (S k2)
     ++ fmt_u ao ++ blanks (S k3) ++ fmt_u mi ++ blanks (S k4) ++ fmt_u mo ++ tail)
  = Some (mk_record (C.to_long (Z.of_N (N.min ts C.ULONG_MAX)))
            (N.min ai C.ULONG_MAX) (N.min ao C.ULONG_MAX)
            (N.min mi C.ULONG_MAX) (N.min mo C.ULONG_MAX)).
Proof.
  intros Htail. unfold parse_line.
  repeat first [ rewrite c_str_blanks
               | rewrite c_str_digits by apply fmt_u_digits ].
  rewrite (next_field_numeral k0 ts) by reflexivity.
  cbn [blanks append C.token strchr Ascii.eqb Bool.eqb orb fst snd].
  rewrite (next_field_numeral k1 ai) by reflexivity.
  cbn [blanks append C.token strchr Ascii.eqb Bool.eqb orb fst snd].
  rewrite (next_field_numeral k2 ao) by reflexivity.
  cbn [blanks append C.token strchr Ascii.eqb Bool.eqb orb fst snd].
  rewrite (next_field_numeral k3 mi) by reflexivity.
  cbn [blanks append C.token strchr Ascii.eqb Bool.eqb orb fst snd].
  rewrite (next_field_numeral k4 mo) by (apply nondigit_token, Htail).
  reflexivity.
Qed.

(** X12.  A line that holds five decimal numerals, separated by one or more
    blanks and possibly after leading blanks, is read as those five numbers
    whatever follows the fifth numeral, as long as it is not one more digit:
    a newline, further columns, or nothing.  A number above [ULONG_MAX] is
    read as [ULONG_MAX], and a timestamp above [LONG_MAX] wraps as a
    [time_t]; within those bounds the record is exactly the five numbers. *)
Theorem numerals_line_parsed
    (k0 k1 k2 k3 k4 : nat) (ts ai ao mi mo : N) (tail : string) :
  nondigit_start tail = true ->
  let line :=
    blanks k0 ++ fmt_u ts ++ blanks (S k1) ++ fmt_u ai ++ blanks (S k2)
    ++ fmt_u ao ++ blanks (S k3) ++ fmt_u mi ++ blanks (S k4) ++ fmt_u mo ++ tail in
  parse_line line
  = Some (mk_record (C.to_long (Z.of_N (N.min ts C.ULONG_MAX)))
            (N.min ai C.ULONG_MAX) (N.min ao C.ULONG_MAX)
            (N.min mi C.ULONG_MAX) (N.min mo C.ULONG_MAX))
  /\ ((Z.of_N ts <= C.LONG_MAX)%Z ->
      (ai <= C.ULONG_MAX /\ ao <= C.ULONG_MAX
       /\ mi <= C.ULONG_MAX /\ mo <= C.ULONG_MAX)%N ->
      parse_line line = Some (mk_record (Z.of_N ts) ai ao mi mo)).
Proof.
  intros Htail line.
  pose proof (parse_line_numerals k0 k1 k2 k3 k4 ts ai ao mi mo tail Htail) as H.
  fold line in H. split; [exact H|].
  intros Hts (Hai & Hao & Hmi & Hmo). rewrite H.
  assert (Hts' : (ts <= C.ULONG_MAX)%N)
    by (unfold C.LONG_MAX, C.ULONG_MAX in *; lia).
  rewrite !N.min_l by assumption.
  rewrite to_long_small by (unfold C.LONG_MIN; lia). reflexivity.
Qed.

Lemma numerals_line_parsed_witness :
  parse_line
    (blanks 0 ++ fmt_u 100 ++ blanks 1 ++ fmt_u 500 ++ blanks 1
     ++ fmt_u 600 ++ blanks 1 ++ fmt_u 700 ++ blanks 1 ++ fmt_u 800 ++ nl)
  = Some (mk_record (C.to_long (Z.of_N (N.min 100 C.ULONG_MAX)))
            (N.min 500 C.ULONG_MAX) (N.min 600 C.ULONG_MAX)
            (N.min 700 C.ULONG_MAX) (N.min 800 C.ULONG_MAX)).
Proof.
  exact (proj1 (numerals_line_parsed 0 0 0 0 0 100 500 600 700 800 nl eq_refl)).
Defined.

(** * A well-formed log is evaluated *)

Lemma read_line_whole (l rest : string) :
  no_newline l = true ->
  forall room, (String.length l < room)%nat ->
    C.read_line room (l ++ nl ++ rest) = (l ++ nl, rest).
Proof.
  induction l as [|c l IH]; intros Hl room Hroom.
  - destruct room as [|room]; [cbn in Hroom; lia | reflexivity].
  - cbn [no_newline] in Hl. apply andb_true_iff in Hl. destruct Hl as [Hc Hl].
    apply negb_true_iff in Hc.
    destruct room as [|room]; [cbn in Hroom; lia|].
    cbn [append C.read_line]. rewrite Hc.
    rewrite (IH Hl room) by (cbn in Hroom; lia). reflexivity.
Qed.

(** A line that fits the buffer is read whole, newline included. *)
Lemma fgets_line_whole (size : nat) (l rest : string) :
  no_newline l = true -> (String.length l + 1 < size)%nat ->
  C.fgets size (l ++ nl ++ rest) = Some (l ++ nl, rest).
Proof.
  intros Hl Hsize. destruct size as [|[|room]]; try lia.
  unfold C.fgets.
  rewrite (read_line_whole l rest Hl (S room)) by lia.
  destruct l; reflexivity.
Qed.

Lemma no_newline_app (a b : string) :
  no_newline (a ++ b) = no_newline a && no_newline b.
Proof.
  induction a as [|c a IH]; [reflexivity|]. cbn. rewrite IH.
  now rewrite andb_assoc.
Qed.

Lemma no_newline_fmt_u (n : N) : no_newline (fmt_u n) = true.
Proof.
  destruct (fmt_u_digits n) as [H _].
  induction (fmt_u n) as [|c s IH]; [reflexivity|].
  cbn [all_digits] in H. apply andb_true_iff in H. destruct H as [Hc Hs].
  cbn [no_newline]. destruct (digit_char c Hc) as (_ & _ & ->).
  exact (IH Hs).
Qed.

Lemma no_newline_data_line (ts ai ao mi mo : N) :
  no_newline (data_line ts ai ao mi mo) = true.
Proof.
  unfold data_line.
  repeat (rewrite no_newline_app, no_newline_fmt_u; cbn [andb append no_newline];
          cbn [Ascii.eqb Bool.eqb negb andb ascii_of_nat]).
  apply no_newline_fmt_u.
Qed.

Lemma data_line_then (ts ai ao mi mo : N) (tail : string) :
  data_line ts ai ao mi mo ++ tail
  = blanks 0 ++ fmt_u ts ++ blanks 1 ++ fmt_u ai ++ blanks 1 ++ fmt_u ao
    ++ blanks 1 ++ fmt_u mi ++ blanks 1 ++ fmt_u mo ++ tail.
Proof.
  unfold data_line. cbn [blanks append].
  repeat first [rewrite append_assoc | progress cbn [append]]. reflexivity.
Qed.

(** X13.  The normal run: for a log made of a header line, a line of five
    numerals separated by single blanks, and at least one more character
    after it, with both lines shorter than the buffer, the record evaluated
    is exactly the five numbers of the second line (the timestamp within
    [time_t], the rates within [unsigned long]). *)
Theorem well_formed_log_evaluated
    (MAX_INPUT_BUFFER : nat) (fopen : string -> option string)
    (g : config) (now : Z) (path header more : string) (ts ai ao mi mo : N) :
  log_file g = Some path ->
  fopen path
  = Some (header ++ nl ++ data_line ts ai ao mi mo ++ nl ++ more) ->
  no_newline header = true ->
  (String.length header + 2 < MAX_INPUT_BUFFER)%nat ->
  (String.length (data_line ts ai ao mi mo) + 2 < MAX_INPUT_BUFFER)%nat ->
  more <> "" ->
  (Z.of_N ts <= C.LONG_MAX)%Z ->
  (ai <= C.ULONG_MAX /\ ao <= C.ULONG_MAX /\ mi <= C.ULONG_MAX /\ mo <= C.ULONG_MAX)%N ->
  run MAX_INPUT_BUFFER fopen g now
  = evaluate g (mk_record (Z.of_N ts) ai ao mi mo) now.
Proof.
  intros Hg Hf Hh Hlh Hld Hmore Hts (Hai & Hao & Hmi & Hmo).
  assert (Hts' : (ts <= C.ULONG_MAX)%N) by (unfold C.LONG_MAX, C.ULONG_MAX in *; lia).
  assert (H3 : exists l3 fp3, C.fgets (MAX_INPUT_BUFFER - 1) more = Some (l3, fp3)).
  { destruct more as [|c more]; [congruence|].
    destruct MAX_INPUT_BUFFER as [|[|[|size]]]; try lia.
    cbn [Nat.sub C.fgets].
    match goal with
    | |- context [C.read_line ?room ?fp] =>
        destruct (C.read_line room fp) as [l3 fp3]
    end.
    exists l3, fp3. reflexivity. }
  destruct H3 as (l3 & fp3 & H3).
  rewrite (run_three_lines MAX_INPUT_BUFFER fopen g now path _
             (header ++ nl) (data_line ts ai ao mi mo ++ nl ++ more)
             (data_line ts ai ao mi mo ++ nl) more l3 fp3
             (mk_record (Z.of_N ts) ai ao mi mo) Hg Hf).
  - reflexivity.
  - apply fgets_line_whole; [exact Hh | lia].
  - apply fgets_line_whole; [apply no_newline_data_line | lia].
  - rewrite data_line_then, (parse_line_numerals 0 0 0 0 0) by reflexivity.
    rewrite !N.min_l by assumption.
    rewrite to_long_small by (unfold C.LONG_MIN; lia). reflexivity.
  - exact H3.
Qed.

Lemma well_formed_log_evaluated_witness :
  run 1024 (only_log three_line_log) sample_config 110
  = evaluate sample_config (mk_record (Z.of_N 100) 500 600 700 800) 110.
Proof.
  exact (well_formed_log_evaluated 1024 (only_log three_line_log) sample_config 110
           "log" "header" ("40 510 610 710 810" ++ nl) 100 500 600 700 800
           eq_refl eq_refl eq_refl
           ltac:(vm_compute; lia) ltac:(vm_compute; lia)
           ltac:(discriminate) ltac:(vm_compute; discriminate)
           ltac:(vm_compute; repeat split; discriminate)).
Defined.

(** * Values stay within their C types *)

Lemma ulong_of_range (neg : bool) (v : N) : (C.ulong_of neg v <= C.ULONG_MAX)%N.
Proof.
  unfold C.ulong_of, C.neg_ulong.
  destruct (N.ltb_spec C.ULONG_MAX v); [lia|].
  destruct neg; [|assumption].
  pose proof (N.mod_lt (2 ^ 64 - v) (2 ^ 64) ltac:(discriminate)) as H1.
  unfold C.ULONG_MAX.
  change (2 ^ 64)%N with 18446744073709551616%N in *. lia.
Qed.

Lemma strtoul_range (s : string) : (C.strtoul s <= C.ULONG_MAX)%N.
Proof.
  unfold C.strtoul. destruct (C.take_sign (C.skip_spaces s)) as [neg s1].
  destruct (C.digits 0 0 s1) as [[v count] rest]. apply ulong_of_range.
Qed.

Lemma sscanf_range (s : string) :
  (forall a, fst (C.sscanf_lu_lu s) = Some a -> (a <= C.ULONG_MAX)%N)
  /\ (forall b, snd (C.sscanf_lu_lu s) = Some b -> (b <= C.ULONG_MAX)%N).
Proof.
  assert (Hscan : forall t a rest, C.scan_lu t = Some (a, rest) -> (a <= C.ULONG_MAX)%N).
  { intros t a rest. unfold C.scan_lu.
    destruct (C.take_sign (C.skip_spaces t)) as [neg s1].
    destruct (C.digits 0 0 s1) as [[v count] r1].
    destruct count; [discriminate|]. intros H. injection H as <- _.
    apply ulong_of_range. }
  unfold C.sscanf_lu_lu. destruct (C.scan_lu s) as [[a rest]|] eqn:E.
  - pose proof (Hscan s a rest E) as Ha.
    destruct rest as [|c rest]; [split; intros x H; cbn in H; congruence|].
    destruct (Ascii.eqb_spec c ","%char) as [-> | Hc].
    + destruct (C.scan_lu rest) as [[b r2]|] eqn:E2.
      * pose proof (Hscan rest b r2 E2) as Hb. split; intros x H; cbn in H; congruence.
      * split; intros x H; cbn in H; congruence.
    + assert (Hm : match String c rest with
                   | String ","%char r =>
                       match C.scan_lu r with
                       | None => (Some a, None)
                       | Some (b, _) => (Some a, Some b)
                       end
                   | _ => (Some a, @None N)
                   end = (Some a, None)).
      { destruct c as [[] [] [] [] [] [] [] []]; try reflexivity. elim Hc. reflexivity. }
      rewrite Hm. split; intros x H; cbn in H; congruence.
  - split; intros x H; cbn in H; discriminate.
Qed.

Lemma to_int_range (z : Z) : (C.INT_MIN <= C.to_int z <= C.INT_MAX)%Z.
Proof.
  unfold C.to_int, C.INT_MIN, C.INT_MAX.
  pose proof (Z.mod_pos_bound (z + 2 ^ 31) (2 ^ 32) ltac:(lia)). lia.
Qed.

Lemma to_long_range (z : Z) : (C.LONG_MIN <= C.to_long z <= C.LONG_MAX)%Z.
Proof.
  unfold C.to_long, C.LONG_MIN, C.LONG_MAX.
  pose proof (Z.mod_pos_bound (z + 2 ^ 63) (2 ^ 64) ltac:(lia)). lia.
Qed.

Lemma handle_option_in_range (r : Getopt.ret) (g g' : config) :
  config_in_range g -> handle_option r g = inl g' -> config_in_range g'.
Proof.
  intros Hg.
  destruct r as [c | c optarg];
    destruct c as [[] [] [] [] [] [] [] []]; cbn [handle_option];
    try discriminate;
    try destruct (String.eqb optarg "MAX");
    try (pose proof (sscanf_range optarg) as [Hi Ho];
         destruct (C.sscanf_lu_lu optarg) as [[i|] [o|]]);
    intros H; injection H as <-; try exact Hg;
    unfold config_in_range in *;
    cbn [expire_minutes incoming_warning_threshold incoming_critical_threshold
         outgoing_warning_threshold outgoing_critical_threshold
         set_expire_minutes set_incoming_warning set_incoming_critical
         set_outgoing_warning set_outgoing_critical assign fst snd] in *;
    repeat split;
    first [ tauto | apply to_int_range | apply Hi; reflexivity
          | apply Ho; reflexivity | lia ].
Qed.

Lemma handle_options_in_range (rs : list Getopt.ret) :
  forall g g', config_in_range g -> handle_options rs g = inl g' ->
               config_in_range g'.
Proof.
  induction rs as [|r rs IH]; intros g g' Hg; cbn [handle_options].
  - intros H. injection H as <-. exact Hg.
  - destruct (handle_option r g) as [g1|o] eqn:E; [|discriminate].
    apply IH. exact (handle_option_in_range r g g1 Hg E).
Qed.

Lemma positional_threshold_in_range
    (get : config -> N) (set : N -> config -> config) (st : config * list string) :
  (forall v g, (v <= C.ULONG_MAX)%N -> config_in_range g -> config_in_range (set v g)) ->
  config_in_range (fst st) ->
  config_in_range (fst (positional_threshold get set st)).
Proof.
  intros Hset. destruct st as [g [|a rest]]; cbn; [tauto|].
  destruct (get g =? 0)%N; cbn; [|tauto].
  intros Hg. apply Hset; [apply strtoul_range | exact Hg].
Qed.

Lemma positional_in_range (g : config) (rest : list string) :
  config_in_range g -> config_in_range (positional g rest).
Proof.
  intros Hg. unfold positional.
  repeat (apply positional_threshold_in_range;
          [intros v g0 Hv Hg0; unfold config_in_range in *; cbn; tauto|]).
  assert (H1 : config_in_range (fst (positional_log_file (g, rest)))).
  { destruct rest as [|a rest]; cbn; [exact Hg|].
    destruct (log_file g); cbn; exact Hg. }
  destruct (positional_log_file (g, rest)) as [g1 rest1]. cbn [fst] in H1.
  assert (H2 : config_in_range (fst (positional_expire (g1, rest1)))).
  { destruct rest1 as [|a rest1]; cbn; [exact H1|].
    destruct (expire_minutes g1 =? -1)%Z; cbn; [|exact H1].
    unfold config_in_range in *. cbn. split; [apply to_int_range | tauto]. }
  destruct (positional_expire (g1, rest1)) as [g2 rest2]. cbn [fst] in H2.
  destruct rest2 as [|a rest2]; cbn; [exact H2|].
  destruct (String.eqb a "MAX"); [exact H2|].
  destruct (String.eqb a "AVG"); exact H2.
Qed.

Lemma parse_line_in_range (line : string) (r : log_record) :
  parse_line line = Some r -> record_in_range r.
Proof.
  unfold parse_line, next_field.
  destruct (C.strtok " " (c_str line)) as [[t1 s1]|]; [|discriminate].
  destruct (C.strtok " " s1) as [[t2 s2]|]; [|discriminate].
  destruct (C.strtok " " s2) as [[t3 s3]|]; [|discriminate].
  destruct (C.strtok " " s3) as [[t4 s4]|]; [|discriminate].
  destruct (C.strtok " " s4) as [[t5 s5]|]; [|discriminate].
  intros H. injection H as <-. unfold record_in_range. cbn.
  split; [apply to_long_range|]. repeat split; apply strtoul_range.
Qed.

(** X14.  Every number the evaluator is given is within its C type: after
    [process_arguments], the expiry is an [int] and the four thresholds are
    [unsigned long]s, and a record read from the log has a [time_t] as its
    timestamp and [unsigned long] rates, whatever the command line and the
    log contain. *)
Theorem values_in_range
    (MAX_INPUT_BUFFER : nat) (argv : list string) (content : string) :
  (forall rc g, process_arguments argv = inl (rc, g) -> config_in_range g)
  /\ (forall line r,
        read_log MAX_INPUT_BUFFER content = Read line r -> record_in_range r).
Proof.
  assert (Hd : config_in_range defaults)
    by (unfold config_in_range, C.INT_MIN, C.INT_MAX, C.ULONG_MAX; cbn; lia).
  assert (Hn : record_in_range no_record)
    by (unfold record_in_range, C.LONG_MIN, C.LONG_MAX, C.ULONG_MAX; cbn; lia).
  split.
  - intros rc g H.
    destruct (process_arguments_returns argv rc g H)
      as [(_ & _ & ->) | (_ & _ & g1 & H1 & ->)]; [exact Hd|].
    apply positional_in_range. exact (handle_options_in_range _ _ _ Hd H1).
  - intros line r. rewrite read_log_lines.
    destruct (C.fgets (MAX_INPUT_BUFFER - 1) content) as [[l1 fp1]|];
      [|intros H; injection H as _ <-; exact Hn].
    destruct (C.fgets (MAX_INPUT_BUFFER - 1) fp1) as [[l2 fp2]|];
      [|intros H; injection H as _ <-; exact Hn].
    destruct (parse_line l2) as [r2|] eqn:E; [|discriminate].
    pose proof (parse_line_in_range l2 r2 E) as Hr.
    destruct (C.fgets (MAX_INPUT_BUFFER - 1) fp2) as [[l3 fp3]|];
      intros H; injection H as _ <-; exact Hr.
Qed.

(** * The UNKNOWN exit *)

Lemma evaluate_status (g : config) (r : log_record) (now : Z) :
  status (evaluate g r now) = Some STATE_OK
  \/ status (evaluate g r now) = Some STATE_WARNING
  \/ status (evaluate g r now) = Some STATE_CRITICAL.
Proof.
  destruct (expired g r now) eqn:E.
  - rewrite (evaluate_expired g r now E). right; left; reflexivity.
  - rewrite (evaluate_fresh g r now E). cbn [status].
    pose proof (check_rates_never_unknown g r) as H.
    destruct (check_rates g r); [left | right; left | right; right | elim H];
      reflexivity.
Qed.

Lemma process_arguments_exits (argv : list string) (o : outcome) :
  process_arguments argv = inr o -> option_exit o.
Proof.
  unfold process_arguments, resolve.
  destruct (List.length argv <? 2)%nat; [discriminate|].
  destruct (Getopt.getopt_long (respell_argv argv)) as [rs rest].
  destruct (handle_options rs defaults) as [g|o'] eqn:E; [discriminate|].
  intros H. injection H as <-. exact (handle_options_exits rs defaults o' E).
Qed.

(** X15.  The UNKNOWN exit is only taken through [usage]: whenever a run
    ends with UNKNOWN, what it printed is one of the four messages of the
    program followed by the usage text.  An evaluation of a record never ends
    with UNKNOWN. *)
Theorem unknown_is_usage
    (MAX_INPUT_BUFFER : nat) (fopen : string -> option string)
    (argv : list string) (now : Z) :
  status (main MAX_INPUT_BUFFER fopen argv now) = Some STATE_UNKNOWN ->
  (exists msg, In msg usage_messages
               /\ main MAX_INPUT_BUFFER fopen argv now = usage msg)
  /\ (forall g r, status (evaluate g r now) <> Some STATE_UNKNOWN).
Proof.
  assert (Hev : forall g r, status (evaluate g r now) <> Some STATE_UNKNOWN).
  { intros g r. destruct (evaluate_status g r now) as [-> | [-> | ->]]; discriminate. }
  intros H. split; [|exact Hev].
  unfold main in *.
  destruct (process_arguments argv) as [[[|] g]|o] eqn:E.
  - unfold run in *. destruct (log_file g) as [path|]; [|discriminate H].
    destruct (fopen path) as [content|];
      [|eexists; split; [|reflexivity]; cbn; tauto].
    destruct (read_log MAX_INPUT_BUFFER content) as [line r| |];
      try discriminate H.
    destruct (line <=? 2)%nat; [eexists; split; [|reflexivity]; cbn; tauto|].
    elim (Hev g r H).
  - eexists; split; [|reflexivity]; cbn; tauto.
  - destruct (process_arguments_exits argv o E); try discriminate H.
    eexists; split; [|reflexivity]; cbn; tauto.
Qed.

Lemma unknown_is_usage_witness :
  exists msg, In msg usage_messages
              /\ main 1024 (only_log two_line_log) ["check_mrtgtraf"; "-F"; "nolog"] 110
                 = usage msg.
Proof.
  exact (proj1 (unknown_is_usage 1024 (only_log two_line_log)
                  ["check_mrtgtraf"; "-F"; "nolog"] 110 eq_refl)).
Defined.

(** * A first line that fills the buffer *)

Lemma read_line_full (l rest : string) :
  no_newline l = true ->
  C.read_line (String.length l) (l ++ rest) = (l, rest).
Proof.
  induction l as [|c l IH]; intros Hl.
  - cbn. destruct rest; reflexivity.
  - cbn [no_newline] in Hl. apply andb_true_iff in Hl. destruct Hl as [Hc Hl].
    apply negb_true_iff in Hc.
    cbn [String.length append C.read_line]. rewrite Hc, (IH Hl). reflexivity.
Qed.

(** X16.  [fgets] is given room for [MAX_INPUT_BUFFER - 2] characters.  A
    first line that has that many characters before its newline is cut
    there, and what is left of it counts as the second line: the run is the
    same as for a log with a short first line followed by that rest. *)
Theorem long_first_line_split
    (MAX_INPUT_BUFFER : nat) (g : config) (now : Z)
    (path long short rest : string) :
  log_file g = Some path ->
  no_newline long = true -> String.length long = (MAX_INPUT_BUFFER - 2)%nat ->
  (0 < String.length long)%nat ->
  no_newline short = true -> (String.length short + 2 < MAX_INPUT_BUFFER)%nat ->
  run MAX_INPUT_BUFFER (fun _ => Some (long ++ rest)) g now
  = run MAX_INPUT_BUFFER (fun _ => Some (short ++ nl ++ rest)) g now.
Proof.
  intros Hg Hl Hlen Hpos Hs Hslen. unfold run. rewrite Hg.
  rewrite !read_log_lines.
  rewrite (fgets_line_whole (MAX_INPUT_BUFFER - 1) short rest Hs) by lia.
  assert (Hlong : C.fgets (MAX_INPUT_BUFFER - 1) (long ++ rest) = Some (long, rest)).
  { replace (MAX_INPUT_BUFFER - 1)%nat with (S (String.length long)) by lia.
    unfold C.fgets. rewrite (read_line_full long rest Hl).
    destruct long as [|c long]; [cbn in Hpos; lia | reflexivity]. }
  rewrite Hlong. reflexivity.
Qed.

Lemma long_first_line_split_witness :
  run 30 (fun _ => Some ("twenty-eight characters long"
                         ++ data_line 100 500 600 700 800 ++ nl ++ "x"))
      sample_config 110
  = run 30 (fun _ => Some ("h" ++ nl ++ data_line 100 500 600 700 800 ++ nl ++ "x"))
      sample_config 110.
Proof.
  exact (long_first_line_split 30 sample_config 110 "log"
           "twenty-eight characters long" "h"
           (data_line 100 500 600 700 800 ++ nl ++ "x")
           eq_refl eq_refl eq_refl ltac:(vm_compute; lia) eq_refl
           ltac:(vm_compute; lia)).
Defined.

(** On that log the record is taken from the first line of the file. *)
Example long_first_line_read_as_data :
  run 30 (fun _ => Some ("twenty-eight characters long"
                         ++ data_line 100 500 600 700 800 ++ nl ++ "x"))
      sample_config 110
  = Exit STATE_CRITICAL (Text ("Ave. In = 500.0 B/s, Ave. Out = 600.0 B/s" ++ nl)).
Proof. vm_compute. reflexivity. Qed.

(** * The printed value read back *)

Lemma fmt_u_digit_value (n : N) :
  (n < 10)%N ->
  exists c, fmt_u n = String c EmptyString /\ isdigit c = true /\ digit_value c = n.
Proof.
  intros H. rewrite <- (N2Nat.id n).
  assert (Hk : (N.to_nat n < 10)%nat) by lia.
  generalize dependent (N.to_nat n). clear H n. intros k Hk.
  destruct k as [|[|[|[|[|[|[|[|[|[|k]]]]]]]]]];
    try (eexists; split; [reflexivity | split; reflexivity]).
  lia.
Qed.

(** Reading the text that [%0.1f] printed gives back the tenths that were
    printed. *)
Lemma read_f1_fmt_f1 (q : Q) : read_f1 (fmt_f1 q) = Some (tenths q).
Proof.
  unfold read_f1, fmt_f1.
  destruct (fmt_u_digit_value (tenths q mod 10)) as (c & Hc & Hd & Hv).
  { apply N.mod_lt. discriminate. }
  destruct (numeral_start (tenths q / 10) ("." ++ fmt_u (tenths q mod 10)))
    as (_ & _ & k & Hk).
  rewrite fmt_u_string, (digits_uint _ ("." ++ fmt_u (tenths q mod 10)) eq_refl).
  rewrite DecimalN.Unsigned.of_to, Hk, Hc. cbn [Nat.add append].
  rewrite Hd, Hv. rewrite <- N.div_mod' . reflexivity.
Qed.

Lemma round_half_even_tie (n d : N) :
  (0 < d)%N ->
  (2 * (round_half_even n d * d) = 2 * n + d
   \/ 2 * n = 2 * (round_half_even n d * d) + d)%N ->
  N.even (round_half_even n d) = true.
Proof.
  intros Hd. unfold round_half_even.
  pose proof (N.div_mod' n d) as Hn.
  pose proof (N.mod_lt n d ltac:(lia)) as Hm.
  generalize dependent (n mod d)%N. generalize dependent (n / d)%N.
  intros q m Hn Hm. subst n.
  destruct (N.ltb_spec (2 * m) d);
    [intros [H1 | H1]; nia
    |destruct (N.ltb_spec d (2 * m)); [intros [H1 | H1]; nia|]].
  intros _. destruct (N.even q) eqn:E; [exact E|].
  rewrite N.add_1_r, N.even_succ, <- N.negb_even, E. reflexivity.
Qed.

(** What is printed for a [double] that is not negative is its value
    rounded to one decimal: the number read back from the text is within
    half a tenth of the value, and has an even last digit when the value lies
    halfway between two tenths. *)
Lemma printed_value_rounded (q : Q) :
  (0 <= Qnum q)%Z ->
  exists t,
    read_f1 (fmt_f1 q) = Some t
    /\ q - (1 # 20) <= inject_Z (Z.of_N t) / 10
    /\ inject_Z (Z.of_N t) / 10 <= q + (1 # 20)
    /\ (inject_Z (Z.of_N t) / 10 - q == 1 # 20
        \/ q - inject_Z (Z.of_N t) / 10 == 1 # 20 -> N.even t = true).
Proof.
  intros Hq. exists (tenths q).
  split; [apply read_f1_fmt_f1|].
  destruct (shown_accuracy q Hq) as [H1 H2]. unfold shown in *.
  split; [exact H1|]. split; [exact H2|].
  intros Htie. unfold tenths. apply round_half_even_tie; [lia|].
  fold (tenths q). remember (tenths q) as t. clear Heqt H1 H2.
  destruct q as [a b]. simpl Qnum in *. simpl Qden in *.
  unfold Qeq, Qminus, Qplus, Qopp, Qdiv, Qmult, Qinv, inject_Z in Htie.
  simpl in Htie. rewrite !Pos2Z.inj_mul in Htie.
  destruct Htie as [H | H]; [left | right]; lia.
Qed.

(** C4.  A rate is reported in B/s exactly when it is below 1024, in KB/s
    exactly when it is at least 1024 and below 1048576, and in MB/s exactly
    when it is at least 1048576.  The value reported is the rate itself, the
    rate divided by 1024, and the rate (as a [double]) divided by 1048576;
    the [double] is the rate itself below 2^53 and within the fraction 2^-53
    of it above.  It is printed with one decimal place: the text is a
    numeral, a point and one digit, and the number it denotes is the value
    reported, to within half a tenth. *)
Theorem C4_unit_normalization (r : N) :
  (speed_rating r = "B/s" <-> (r < 1024)%N)
  /\ (speed_rating r = "KB/s" <-> (1024 <= r < 1048576)%N)
  /\ (speed_rating r = "MB/s" <-> (1048576 <= r)%N)
  /\ ((r < 1024)%N -> adjusted_rate r == inject_Z (Z.of_N r))
  /\ ((1024 <= r < 1048576)%N -> adjusted_rate r == inject_Z (Z.of_N r) / 1024)
  /\ ((1048576 <= r)%N ->
      adjusted_rate r == inject_Z (Z.of_N (double_of_ulong r)) / 1048576)
  /\ ((r < 2 ^ 53)%N -> double_of_ulong r = r)
  /\ (2 ^ 53 * double_of_ulong r <= (2 ^ 53 + 1) * r
      /\ (2 ^ 53 - 1) * r <= 2 ^ 53 * double_of_ulong r)%N
  /\ (exists int_part digit,
        fmt_f1 (adjusted_rate r) = int_part ++ "." ++ String digit EmptyString
        /\ numeric int_part = true /\ isdigit digit = true)
  /\ (exists t,
        read_f1 (fmt_f1 (adjusted_rate r)) = Some t
        /\ adjusted_rate r - (1 # 20) <= inject_Z (Z.of_N t) / 10
        /\ inject_Z (Z.of_N t) / 10 <= adjusted_rate r + (1 # 20)).
Proof.
  pose proof (unit_normalization_values r)
    as (H1 & H2 & H3 & H4 & H5 & H6 & H7 & H8 & H9).
  repeat (split; [assumption|]).
  destruct (printed_value_rounded (adjusted_rate r) (adjusted_rate_nonneg r))
    as (t & Ht & Hlo & Hhi & _).
  exists t. split; [exact Ht|]. split; [exact Hlo | exact Hhi].
Qed.

(** X6.  What is printed for a rate is the exact value reported
    ([adjusted_rate]) rounded to one decimal: the number read back from the
    printed text is within 0.05 of that value, with an even last digit when
    the value lies halfway between two tenths.  A rate below 1024 is printed
    as the integer it is, followed by ".0". *)
Theorem displayed_value_accuracy (rate : N) :
  (exists t,
     read_f1 (fmt_f1 (adjusted_rate rate)) = Some t
     /\ adjusted_rate rate - (1 # 20) <= inject_Z (Z.of_N t) / 10
     /\ inject_Z (Z.of_N t) / 10 <= adjusted_rate rate + (1 # 20)
     /\ (inject_Z (Z.of_N t) / 10 - adjusted_rate rate == 1 # 20
         \/ adjusted_rate rate - inject_Z (Z.of_N t) / 10 == 1 # 20 ->
         N.even t = true))
  /\ ((rate < 1024)%N ->
      fmt_f1 (adjusted_rate rate) = fmt_u rate ++ ".0"
      /\ read_f1 (fmt_f1 (adjusted_rate rate)) = Some (10 * rate)%N).
Proof.
  split; [apply printed_value_rounded, adjusted_rate_nonneg|].
  intros H.
  assert (E : fmt_f1 (adjusted_rate rate) = fmt_u rate ++ ".0").
  { unfold adjusted_rate.
    destruct (N.ltb_spec rate 1024); [|lia].
    rewrite double_of_ulong_exact
      by (change (2 ^ 53)%N with 9007199254740992%N; lia).
    unfold fmt_f1, tenths, round_half_even. simpl Qnum. simpl Qden.
    rewrite N2Z.id, N.mod_1_r, N.div_1_r.
    change (2 * 0 <? 1)%N with true. cbv iota.
    rewrite N.div_mul by discriminate. rewrite N.Div0.mod_mul. reflexivity. }
  split; [exact E|].
  rewrite read_f1_fmt_f1. f_equal. unfold adjusted_rate.
  destruct (N.ltb_spec rate 1024); [|lia].
  rewrite double_of_ulong_exact
    by (change (2 ^ 53)%N with 9007199254740992%N; lia).
  unfold tenths, round_half_even. simpl Qnum. simpl Qden.
  rewrite N2Z.id, N.mod_1_r, N.div_1_r.
  change (2 * 0 <? 1)%N with true. cbv iota. lia.
Qed.

(** * Surplus positional arguments *)

Local Open Scope list_scope.

(** A positional step takes at most the first argument, so it does the same
    with more arguments behind a list that is not empty. *)
Lemma positional_log_file_frame (g : config) (l surplus : list string) :
  (1 <= List.length l)%nat ->
  positional_log_file (g, l ++ surplus)
  = (fst (positional_log_file (g, l)), snd (positional_log_file (g, l)) ++ surplus)
  /\ (List.length l <= S (List.length (snd (positional_log_file (g, l)))))%nat.
Proof.
  destruct l as [|a l]; cbn; [lia|]. intros _.
  destruct (log_file g); cbn; split; (reflexivity || lia).
Qed.

Lemma positional_expire_frame (g : config) (l surplus : list string) :
  (1 <= List.length l)%nat ->
  positional_expire (g, l ++ surplus)
  = (fst (positional_expire (g, l)), snd (positional_expire (g, l)) ++ surplus)
  /\ (List.length l <= S (List.length (snd (positional_expire (g, l)))))%nat.
Proof.
  destruct l as [|a l]; cbn; [lia|]. intros _.
  destruct (expire_minutes g =? -1)%Z; cbn; split; (reflexivity || lia).
Qed.

Lemma positional_aggregation_frame (g : config) (l surplus : list string) :
  (1 <= List.length l)%nat ->
  positional_aggregation (g, l ++ surplus)
  = (fst (positional_aggregation (g, l)),
     snd (positional_aggregation (g, l)) ++ surplus)
  /\ (List.length l <= S (List.length (snd (positional_aggregation (g, l)))))%nat.
Proof.
  destruct l as [|a l]; cbn [List.length app positional_aggregation]; [lia|].
  intros _.
  destruct (String.eqb a "MAX"); [|destruct (String.eqb a "AVG")];
    cbn [fst snd List.length app]; split; (reflexivity || lia).
Qed.

Lemma positional_threshold_frame
    (get : config -> N) (set : N -> config -> config)
    (g : config) (l surplus : list string) :
  (1 <= List.length l)%nat ->
  positional_threshold get set (g, l ++ surplus)
  = (fst (positional_threshold get set (g, l)),
     snd (positional_threshold get set (g, l)) ++ surplus)
  /\ (List.length l <= S (List.length (snd (positional_threshold get set (g, l)))))%nat.
Proof.
  destruct l as [|a l]; cbn; [lia|]. intros _.
  destruct (get g =? 0)%N; cbn; split; (reflexivity || lia).
Qed.

(** X17.  The positional steps look at seven arguments at most: whatever
    follows the seventh positional argument changes nothing, and is not
    reported.  In particular a legacy command line with more than seven
    arguments is read as its first seven. *)
Theorem surplus_arguments_ignored (g : config) (l surplus : list string) :
  List.length l = 7%nat ->
  positional g (l ++ surplus) = positional g l
  /\ forall a0,
       forallb nonoption (l ++ surplus) = true ->
       process_arguments (a0 :: l ++ surplus) = process_arguments (a0 :: l).
Proof.
  intros Hlen.
  assert (Hpos : forall g0, positional g0 (l ++ surplus) = positional g0 l).
  { intros g0. unfold positional.
    destruct (positional_log_file_frame g0 l surplus ltac:(lia)) as [-> H1].
    destruct (positional_log_file (g0, l)) as [g1 l1]. cbn [fst snd] in *.
    destruct (positional_expire_frame g1 l1 surplus ltac:(lia)) as [-> H2].
    destruct (positional_expire (g1, l1)) as [g2 l2]. cbn [fst snd] in *.
    destruct (positional_aggregation_frame g2 l2 surplus ltac:(lia)) as [-> H3].
    destruct (positional_aggregation (g2, l2)) as [g3 l3]. cbn [fst snd] in *.
    destruct (positional_threshold_frame incoming_warning_threshold
                set_incoming_warning g3 l3 surplus ltac:(lia)) as [-> H4].
    destruct (positional_threshold incoming_warning_threshold
                set_incoming_warning (g3, l3)) as [g4 l4]. cbn [fst snd] in *.
    destruct (positional_threshold_frame incoming_critical_threshold
                set_incoming_critical g4 l4 surplus ltac:(lia)) as [-> H5].
    destruct (positional_threshold incoming_critical_threshold
                set_incoming_critical (g4, l4)) as [g5 l5]. cbn [fst snd] in *.
    destruct (positional_threshold_frame outgoing_warning_threshold
                set_outgoing_warning g5 l5 surplus ltac:(lia)) as [-> H6].
    destruct (positional_threshold outgoing_warning_threshold
                set_outgoing_warning (g5, l5)) as [g6 l6]. cbn [fst snd] in *.
    destruct (positional_threshold_frame outgoing_critical_threshold
                set_outgoing_critical g6 l6 surplus ltac:(lia)) as [-> H7].
    reflexivity. }
  split; [apply Hpos|].
  intros a0 Hnon.
  assert (Hl : forallb nonoption l = true).
  { rewrite forallb_app in Hnon. apply andb_true_iff in Hnon. tauto. }
  destruct l as [|a1 l]; [discriminate Hlen|].
  rewrite <- app_comm_cons in *.
  rewrite (process_arguments_positional a0 a1 _ Hnon).
  rewrite (process_arguments_positional a0 a1 _ Hl).
  f_equal. f_equal. apply (Hpos defaults).
Qed.

Lemma surplus_arguments_ignored_witness :
  positional defaults (tl legacy_argv ++ ["5"; "6"]) = positional defaults (tl legacy_argv).
Proof.
  exact (proj1 (surplus_arguments_ignored defaults (tl legacy_argv) ["5"; "6"] eq_refl)).
Defined.
